(** * sticky-svg-route-map: the GPX-to-SVG conversion pipeline

    A shallow embedding of the numeric core of the repository:

    - [TrackUploader]: the part of [parseGPXFile] that runs once the XML has
      been decoded into [GPXPoint]s (bounds, distance, elevation gain,
      duration, metadata);
    - [CoordinateTransform]: [gpsToSVG] and [calculateOptimalDimensions];
    - [TrackToSVGConverter]: [convert], [simplifyPath] (Douglas-Peucker) and
      [pointToLineDistance];
    - [GPXDemo]: the path from an uploaded track to its SVG;
    - [StickyRouteMap]: the drawing of the route paths by their stroke dashes
      ([updatePathDrawing]) and the progress of [handleScroll].

    A JavaScript [number] is an IEEE 754 binary64 value: it is modelled by
    Rocq's primitive [float], whose operations are the processor's.  Division
    by zero therefore yields an infinity or NaN, as it does in the source, and
    never raises. *)

From Stdlib Require Import ZArith List Bool Lia String.
From Stdlib Require Import Floats Uint63.
From stdpp Require Import base list.
Import ListNotations.

Set Warnings "-inexact-float".

#[local] Open Scope float_scope.
#[local] Open Scope nat_scope.

(** ** JavaScript numbers *)

Module JS.

(** [a > b], [a < b], [a !== b] on numbers. *)
Definition gt (a b : float) : bool := PrimFloat.ltb b a.
Definition lt (a b : float) : bool := PrimFloat.ltb a b.
Definition strict_neq (a b : float) : bool := negb (PrimFloat.eqb a b).

(** ToBoolean on a number: false for [+0], [-0] and NaN. *)
Definition truthy (x : float) : bool := PrimFloat.ltb x 0 || PrimFloat.ltb 0 x.

(** [e || 0] where [e] has type [number | undefined]. *)
Definition or_zero (e : option float) : float :=
  match e with
  | Some v => if truthy v then v else 0%float
  | None => 0%float
  end.

Definition is_pos_zero (x : float) : bool :=
  match classify x with PZero => true | _ => false end.
Definition is_neg_zero (x : float) : bool :=
  match classify x with NZero => true | _ => false end.

(** [Math.max(...l)]: starts from [-Infinity]; NaN is absorbing; [+0] is
    larger than [-0]. *)
Definition max_step (highest number : float) : float :=
  if is_nan number then nan
  else if PrimFloat.ltb highest number then number
  else if is_pos_zero number && is_neg_zero highest then number
  else highest.
Definition Math_max (l : list float) : float := fold_left max_step l neg_infinity.

(** [Math.min(...l)]: starts from [+Infinity]; NaN is absorbing; [-0] is
    smaller than [+0]. *)
Definition min_step (lowest number : float) : float :=
  if is_nan number then nan
  else if PrimFloat.ltb number lowest then number
  else if is_neg_zero number && is_pos_zero lowest then number
  else lowest.
Definition Math_min (l : list float) : float := fold_left min_step l infinity.

(** The integer [n], with [|n| <= 2^53], as a number. *)
Definition of_Z (n : Z) : float :=
  match n with
  | Z0 => 0%float
  | Zpos _ => of_uint63 (Uint63.of_Z n)
  | Zneg _ => PrimFloat.opp (of_uint63 (Uint63.of_Z (Z.opp n)))
  end.

(** [Math.round(x)]: the integer closest to [x], ties towards [+Infinity];
    NaN, the infinities and the zeros are returned as they are, and a
    negative [x >= -0.5] gives [-0].  A finite [x = (-1)^s * m * 2^e] with
    [e >= 0] is an integer already; otherwise the result is
    [floor (x + 1/2)], computed exactly. *)
Definition Math_round (x : float) : float :=
  match Prim2SF x with
  | S754_finite s m e =>
      if (0 <=? e)%Z then x
      else
        let k := Z.opp e in
        let v := if s then Zneg m else Zpos m in
        let n := ((2 * v + 2 ^ k) / 2 ^ (k + 1))%Z in
        if (n =? 0)%Z then (if s then neg_zero else 0%float) else of_Z n
  | _ => x
  end.

(** [x] is not NaN. *)
Definition number (x : float) : Prop := Prim2SF x <> S754_nan.

(** [x] is neither NaN nor an infinity. *)
Definition finite (x : float) : Prop :=
  match Prim2SF x with
  | S754_zero _ | S754_finite _ _ _ => True
  | _ => False
  end.

(** [Math.PI]. *)
Definition Math_PI : float := 0x1.921fb54442d18p+1%float.

End JS.

(** Library functions whose value is implementation-approximated
    ([Math.sin], [Math.cos], [Math.atan2]) or a string ([x.toFixed(2)] and the
    number-to-string conversion of a template literal): the development is
    parametric in them. *)
Record Builtins := {
  Math_sin : float -> float;
  Math_cos : float -> float;
  Math_atan2 : float -> float -> float;
  toFixed2 : float -> string;
  Number_toString : float -> string
}.

(** Consecutive pairs [(l[i-1], l[i])] for [i = 1 .. length l - 1], in order:
    the iterations of [for (let i = 1; i < l.length; i++)]. *)
Fixpoint consecutive {A : Type} (l : list A) : list (A * A) :=
  match l with
  | a :: (b :: _) as tl => (a, b) :: consecutive tl
  | _ => []
  end.

(** The outcome of a call that either returns or throws. *)
Inductive result (E A : Type) : Type :=
| Ok (a : A)
| Throw (e : E).
Arguments Ok {E A} a.
Arguments Throw {E A} e.

(** ** components/TrackUploader: [parseGPXFile] after XML decoding *)

Module TrackUploader.

(** [timestamp?: Date]: a [Date] is an object (always truthy) holding a time
    value in milliseconds, NaN for an invalid date. *)
Record Date := { getTime : float }.

Record GPXPoint := {
  lat : float;
  lng : float;
  elevation : option float;
  timestamp : option Date
}.

Record Bounds := { north : float; south : float; east : float; west : float }.

Record Metadata := {
  distance : float;
  duration : option float;
  elevationGain : option float
}.

Record TrackData := {
  name : string;
  points : list GPXPoint;
  bounds : Bounds;
  metadata : Metadata
}.

(** [throw new Error(...)] of [parseGPXFile] when no [trkpt] is found (the
    specification's [EmptyTrackError]). *)
Inductive error := EmptyTrackError.

Section WithBuiltins.
Context (B : Builtins).

(** Haversine distance. *)
Definition calculateDistance (point1 point2 : GPXPoint) : float :=
  let R := 6371000%float in
  let lat1Rad := (lat point1 * JS.Math_PI / 180)%float in
  let lat2Rad := (lat point2 * JS.Math_PI / 180)%float in
  let deltaLatRad := ((lat point2 - lat point1) * JS.Math_PI / 180)%float in
  let deltaLngRad := ((lng point2 - lng point1) * JS.Math_PI / 180)%float in
  let a := (Math_sin B (deltaLatRad / 2) * Math_sin B (deltaLatRad / 2) +
            Math_cos B lat1Rad * Math_cos B lat2Rad *
            Math_sin B (deltaLngRad / 2) * Math_sin B (deltaLngRad / 2))%float in
  let c := (2 * Math_atan2 B (PrimFloat.sqrt a) (PrimFloat.sqrt (1 - a)))%float in
  (R * c)%float.

Definition totalDistance (pts : list GPXPoint) : float :=
  fold_left (fun total '(p, q) => (total + calculateDistance p q)%float)
            (consecutive pts) 0%float.
End WithBuiltins.

Definition computeBounds (pts : list GPXPoint) : Bounds :=
  let lats := map lat pts in
  let lngs := map lng pts in
  {| north := JS.Math_max lats;
     south := JS.Math_min lats;
     east := JS.Math_max lngs;
     west := JS.Math_min lngs |}.

(** One iteration of the elevation-gain loop on the pair
    [(points[i-1], points[i])]. *)
Definition gainStep (gain : float) (pq : GPXPoint * GPXPoint) : float :=
  let prev := JS.or_zero (elevation (fst pq)) in
  let curr := JS.or_zero (elevation (snd pq)) in
  if JS.gt curr prev then (gain + (curr - prev))%float else gain.

Definition hasElevation (p : GPXPoint) : bool :=
  match elevation p with Some _ => true | None => false end.

(** The variable [elevationGain] after the loop. *)
Definition accumulatedGain (pts : list GPXPoint) : float :=
  if existsb hasElevation pts
  then fold_left gainStep (consecutive pts) 0%float
  else 0%float.

Definition hasTimestamp (p : GPXPoint) : bool :=
  match timestamp p with Some _ => true | None => false end.

(** [points.find(p => p.timestamp)?.timestamp]. *)
Definition firstTime (pts : list GPXPoint) : option Date :=
  match find hasTimestamp pts with
  | Some p => timestamp p
  | None => None
  end.

(** [points.slice().reverse().find(p => p.timestamp)?.timestamp]. *)
Definition lastTime (pts : list GPXPoint) : option Date :=
  match find hasTimestamp (rev pts) with
  | Some p => timestamp p
  | None => None
  end.

Definition computeDuration (pts : list GPXPoint) : option float :=
  match firstTime pts, lastTime pts with
  | Some f, Some l => Some (getTime l - getTime f)%float
  | _, _ => None
  end.

(** [elevationGain > 0 ? elevationGain : undefined]. *)
Definition reportedGain (pts : list GPXPoint) : option float :=
  let g := accumulatedGain pts in
  if JS.gt g 0%float then Some g else None.

(** [parseGPXFile], from the decoded track points on; [trackName] is the
    name the source reads from the document or the file name. *)
Definition parseGPXFile (B : Builtins) (trackName : string) (pts : list GPXPoint)
  : result error TrackData :=
  if (length pts =? 0)%nat then Throw EmptyTrackError
  else Ok {| name := trackName;
             points := pts;
             bounds := computeBounds pts;
             metadata := {| distance := totalDistance B pts;
                            duration := computeDuration pts;
                            elevationGain := reportedGain pts |} |}.

End TrackUploader.

(** ** utils/coordinate-transform *)

Module CoordinateTransform.
Import TrackUploader.

(** The fields set by the constructor. *)
Record t := {
  bounds : Bounds;
  width : float;
  height : float;
  padding : float
}.

Record Coord := { x : float; y : float }.

Record Dimensions := { dim_width : float; dim_height : float }.

Definition gpsToSVG (this : t) (lat lng : float) : Coord :=
  let latRange := (north (bounds this) - south (bounds this))%float in
  let lngRange := (east (bounds this) - west (bounds this))%float in
  let paddedLatRange := (latRange * (1 + padding this * 2))%float in
  let paddedLngRange := (lngRange * (1 + padding this * 2))%float in
  let paddedSouth := (south (bounds this) - latRange * padding this)%float in
  let paddedWest := (west (bounds this) - lngRange * padding this)%float in
  let normalizedX := ((lng - paddedWest) / paddedLngRange)%float in
  let normalizedY := ((lat - paddedSouth) / paddedLatRange)%float in
  {| x := (normalizedX * width this)%float;
     y := ((1 - normalizedY) * height this)%float |}.

Definition getViewBox (B : Builtins) (this : t) : string :=
  ("0 0 " ++ Number_toString B (width this) ++ " " ++ Number_toString B (height this))%string.

(** [aspectRatio] as [calculateOptimalDimensions] computes it. *)
Definition aspectRatio (B : Builtins) (b : Bounds) : float :=
  let latRange := (north b - south b)%float in
  let lngRange := (east b - west b)%float in
  let centerLat := ((north b + south b) / 2)%float in
  let latCompressionFactor := Math_cos B (centerLat * JS.Math_PI / 180)%float in
  let adjustedLngRange := (lngRange * latCompressionFactor)%float in
  (adjustedLngRange / latRange)%float.

Definition calculateOptimalDimensions (B : Builtins) (b : Bounds) (maxWidth maxHeight : float)
  : Dimensions :=
  let aspectRatio := aspectRatio B b in
  let width := maxWidth in
  let height := (maxWidth / aspectRatio)%float in
  let '(width, height) :=
    if JS.gt height maxHeight
    then ((maxHeight * aspectRatio)%float, maxHeight)
    else (width, height) in
  {| dim_width := JS.Math_round width; dim_height := JS.Math_round height |}.

End CoordinateTransform.

Module TrackToSVGConverter.
Import TrackUploader.

Record SVGTrackData := {
  name : string;
  svgPath : string;
  viewBox : string;
  width : float;
  height : float;
  originalBounds : Bounds
}.

(** The [options] argument of [convert]: every field may be left out. *)
Record Options := {
  maxWidth : option float;
  maxHeight : option float;
  padding : option float;
  simplify : option bool;
  simplifyTolerance : option float
}.

(** A projected point, with the sample it comes from. *)
Record SvgPoint := { x : float; y : float; original : GPXPoint }.

(** [pointToLineDistance], returning next to its result the divisors of the
    divisions it performed, in order. *)
Definition pointToLineDistance_traced (point lineStart lineEnd : SvgPoint)
  : float * list float :=
  let A := (x lineEnd - x lineStart)%float in
  let B := (y lineEnd - y lineStart)%float in
  let C := (x lineStart - x point)%float in
  let D := (y lineStart - y point)%float in
  let dot := (A * C + B * D)%float in
  let lenSq := (A * A + B * B)%float in
  let '(param, divisors) :=
    if JS.strict_neq lenSq 0%float
    then ((dot / lenSq)%float, [lenSq])
    else ((-1)%float, []) in
  let '(xx, yy) :=
    if JS.lt param 0%float then (x lineStart, y lineStart)
    else if JS.gt param 1%float then (x lineEnd, y lineEnd)
    else ((x lineStart + param * A)%float, (y lineStart + param * B)%float) in
  let dx := (x point - xx)%float in
  let dy := (y point - yy)%float in
  (PrimFloat.sqrt (dx * dx + dy * dy), divisors).

Definition pointToLineDistance (point lineStart lineEnd : SvgPoint) : float :=
  fst (pointToLineDistance_traced point lineStart lineEnd).

(** The scan [for (let i = 1; i < points.length - 1; i++)] of [simplifyPath]
    over the interior points, started at index [i] with the current
    [maxDistance] and [maxIndex]. *)
Fixpoint farthest (start end_ : SvgPoint) (interior : list SvgPoint) (i : nat)
         (maxDistance : float) (maxIndex : nat) : float * nat :=
  match interior with
  | [] => (maxDistance, maxIndex)
  | p :: rest =>
      let distance := pointToLineDistance p start end_ in
      if JS.gt distance maxDistance
      then farthest start end_ rest (S i) distance i
      else farthest start end_ rest (S i) maxDistance maxIndex
  end.

(** [points.slice(1, points.length - 1)]. *)
Definition interior (pts : list SvgPoint) : list SvgPoint :=
  take (length pts - 2) (drop 1 pts).

(** [simplifyPath]; [fuel] bounds the depth of the recursion, and [None]
    stands for a recursion deeper than [fuel]. *)
Fixpoint simplifyPath (fuel : nat) (pts : list SvgPoint) (tolerance : float)
  : option (list SvgPoint) :=
  match fuel with
  | O => None
  | S fuel' =>
      match pts with
      | start :: (_ :: _ :: _) as rest =>
          let end_ := List.last rest start in
          let '(maxDistance, maxIndex) := farthest start end_ (interior pts) 1 0%float 0 in
          if JS.gt maxDistance tolerance then
            match simplifyPath fuel' (take (maxIndex + 1) pts) tolerance with
            | None => None
            | Some leftPart =>
                match simplifyPath fuel' (drop maxIndex pts) tolerance with
                | None => None
                | Some rightPart => Some (removelast leftPart ++ rightPart)
                end
            end
          else Some [start; end_]
      | _ => Some pts
      end
  end.

(** The [M x y L x y ...] string of [convert]. *)
Definition pathData (B : Builtins) (pts : list SvgPoint) : string :=
  match pts with
  | [] => EmptyString
  | p0 :: rest =>
      fold_left
        (fun acc p => (acc ++ " L " ++ toFixed2 B (x p) ++ " " ++ toFixed2 B (y p))%string)
        rest
        ("M " ++ toFixed2 B (x p0) ++ " " ++ toFixed2 B (y p0))%string
  end.

(** The value of an option field after the destructuring
    [const { field = default, ... } = options || {}]. *)
Definition option_or {A : Type} (options : option Options) (field : Options -> option A)
  (default : A) : A :=
  match options with
  | Some o => match field o with Some v => v | None => default end
  | None => default
  end.

(** [trackData.points.map(point => ...)] of [convert]. *)
Definition project (transform : CoordinateTransform.t) (pts : list GPXPoint)
  : list SvgPoint :=
  map (fun point =>
         let svgCoord := CoordinateTransform.gpsToSVG transform (lat point) (lng point) in
         {| x := CoordinateTransform.x svgCoord;
            y := CoordinateTransform.y svgCoord;
            original := point |}) pts.

(** [convert]: [None] when the recursion of [simplifyPath] never returns (in
    the source, a stack overflow); the source has no [throw]. *)
Definition convert (B : Builtins) (trackData : TrackData) (options : option Options)
  : option SVGTrackData :=
  let maxWidth := option_or options maxWidth 800%float in
  let maxHeight := option_or options maxHeight 600%float in
  let padding := option_or options padding 0.1%float in
  let simplify := option_or options simplify true in
  let simplifyTolerance := option_or options simplifyTolerance 0.001%float in
  let optimalDimensions :=
    CoordinateTransform.calculateOptimalDimensions B (bounds trackData) maxWidth maxHeight in
  let transform :=
    {| CoordinateTransform.bounds := bounds trackData;
       CoordinateTransform.width := CoordinateTransform.dim_width optimalDimensions;
       CoordinateTransform.height := CoordinateTransform.dim_height optimalDimensions;
       CoordinateTransform.padding := padding |} in
  let pts := project transform (points trackData) in
  let simplified :=
    if simplify && (100 <? length pts)%nat
    then simplifyPath (S (length pts)) pts simplifyTolerance
    else Some pts in
  match simplified with
  | None => None
  | Some pts =>
      Some {| name := TrackUploader.name trackData;
              svgPath := pathData B pts;
              viewBox := CoordinateTransform.getViewBox B transform;
              width := CoordinateTransform.dim_width optimalDimensions;
              height := CoordinateTransform.dim_height optimalDimensions;
              originalBounds := bounds trackData |}
  end.

End TrackToSVGConverter.

(** ** GPXDemo: from the upload to the SVG *)

Module GPXDemo.
Import TrackUploader TrackToSVGConverter.

(** The options [handleTrackLoaded] passes to [convert]. *)
Definition demoOptions : Options :=
  {| maxWidth := Some 400%float;
     maxHeight := Some 500%float;
     padding := Some 0.05%float;
     simplify := Some true;
     simplifyTolerance := Some 1%float |}.

Definition handleTrackLoaded (B : Builtins) (track : TrackData) : option SVGTrackData :=
  convert B track (Some demoOptions).

(** [handleFileUpload] of the uploader with [onTrackLoaded = handleTrackLoaded]:
    the track is converted only when [parseGPXFile] returned. *)
Definition handleFileUpload (B : Builtins) (trackName : string) (pts : list GPXPoint)
  : result error (option SVGTrackData) :=
  match parseGPXFile B trackName pts with
  | Throw e => Throw e
  | Ok trackData => Ok (handleTrackLoaded B trackData)
  end.

End GPXDemo.

(** ** StickyRouteMap: drawing the route by its stroke dashes *)

Module StickyRouteMap.

(** [a <= b] and [a >= b] on numbers. *)
Definition le (a b : float) : bool := PrimFloat.leb a b.
Definition ge (a b : float) : bool := PrimFloat.leb b a.

(** [Math.abs]. *)
Definition Math_abs (x : float) : float := PrimFloat.abs x.

(** What the component writes to [style.strokeDasharray] and
    [style.strokeDashoffset]: the keyword ['none'], or a number printed by a
    template literal (['0'] is the number 0), kept here as the number. *)
Inductive StyleValue :=
| none
| px (v : float).

Record Style := {
  strokeDasharray : StyleValue;
  strokeDashoffset : StyleValue
}.

(** A route path of the SVG: the length [getTotalLength()] measures, and
    the two style properties above. *)
Record SVGPathElement := {
  getTotalLength : float;
  style : Style
}.

Definition setStyle (pathElement : SVGPathElement) (dasharray dashoffset : StyleValue)
  : SVGPathElement :=
  {| getTotalLength := getTotalLength pathElement;
     style := {| strokeDasharray := dasharray; strokeDashoffset := dashoffset |} |}.

(** The effect that fills [pathLengths]: one length is pushed for every
    element of [routeRefs.current] that is there. *)
Definition measurePaths (routeRefs : list (option SVGPathElement)) : list float :=
  omap (fun pathElement =>
          match pathElement with
          | Some e => Some (getTotalLength e)
          | None => None
          end) routeRefs.

(** [pathLengths.reduce((sum, length) => sum + length, 0)]. *)
Definition totalPathLength (pathLengths : list float) : float :=
  fold_left (fun sum length => (sum + length)%float) pathLengths 0%float.

(** The effect that initializes the paths. *)
Definition initializePaths (prefersReducedMotion : bool)
  (routeRefs : list (option SVGPathElement)) : list (option SVGPathElement) :=
  map (fun pathElement =>
         match pathElement with
         | None => None
         | Some e =>
             if prefersReducedMotion then Some (setStyle e none (px 0))
             else
               let pathLength := getTotalLength e in
               Some (setStyle e (px pathLength) (px pathLength))
         end) routeRefs.

(** The [forEach] of [updatePathDrawing], from [index] on, with the current
    [remainingDistance]; [pathLengths[index]] is [undefined] past the end of
    [pathLengths], and is then falsy as [0] and NaN are. *)
Fixpoint drawPaths (pathLengths : list float) (index : nat) (remainingDistance : float)
  (routeRefs : list (option SVGPathElement)) : list (option SVGPathElement) :=
  match routeRefs with
  | [] => []
  | pathElement :: rest =>
      match pathElement, pathLengths !! index with
      | Some e, Some pathLength =>
          if JS.truthy pathLength then
            if le remainingDistance 0 then
              Some (setStyle e (px pathLength) (px pathLength))
                :: drawPaths pathLengths (S index) remainingDistance rest
            else if ge remainingDistance pathLength then
              Some (setStyle e (px pathLength) (px 0))
                :: drawPaths pathLengths (S index) (remainingDistance - pathLength)%float rest
            else
              let offset := (pathLength - remainingDistance)%float in
              Some (setStyle e (px pathLength) (px offset))
                :: drawPaths pathLengths (S index) 0%float rest
          else pathElement :: drawPaths pathLengths (S index) remainingDistance rest
      | _, _ => pathElement :: drawPaths pathLengths (S index) remainingDistance rest
      end
  end.

(** [updatePathDrawing(progress)]: the new [routeRefs.current]. *)
Definition updatePathDrawing (prefersReducedMotion : bool) (pathLengths : list float)
  (progress : float) (routeRefs : list (option SVGPathElement))
  : list (option SVGPathElement) :=
  if prefersReducedMotion then routeRefs
  else
    let currentProgress := JS.Math_max [0%float; JS.Math_min [1%float; progress]] in
    let remainingDistance := (currentProgress * totalPathLength pathLengths)%float in
    drawPaths pathLengths 0 remainingDistance routeRefs.

(** What [handleScroll] reads from the page once it has found the section. *)
Record Geometry := {
  windowHeight : float;
  sectionTop : float;
  sectionBottom : float;
  sectionHeight : float
}.

(** The variable [progress] of [handleScroll]. *)
Definition handleScroll_progress (g : Geometry) : float :=
  if JS.gt (sectionBottom g) 0 && JS.lt (sectionTop g) (windowHeight g) then
    if le (sectionTop g) 0 then
      let scrolledDistance := Math_abs (sectionTop g) in
      let totalScrollDistance := (sectionHeight g - windowHeight g)%float in
      JS.Math_min [1%float; (scrolledDistance / JS.Math_max [1%float; totalScrollDistance])%float]
    else 0%float
  else 0%float.

(** [handleScroll]: [page] is [None] when the container or its section is
    not there, and nothing is done then; otherwise the new [scrollProgress]
    and the new [routeRefs.current]. *)
Definition handleScroll (prefersReducedMotion : bool) (pathLengths : list float)
  (page : option Geometry) (scrollProgress : float)
  (routeRefs : list (option SVGPathElement)) : float * list (option SVGPathElement) :=
  match page with
  | None => (scrollProgress, routeRefs)
  | Some g =>
      let progress := handleScroll_progress g in
      (progress, updatePathDrawing prefersReducedMotion pathLengths progress routeRefs)
  end.

End StickyRouteMap.

(** ** Notions used to state the properties *)

Module Notions.
Import TrackUploader TrackToSVGConverter.

(** Not NaN, and with the sign bit clear: [+0], a positive number or
    [+Infinity]. *)
Definition SFnonneg (f : spec_float) : Prop :=
  match f with
  | S754_zero false | S754_infinity false | S754_finite false _ _ => True
  | _ => False
  end.

Definition SFfinite (f : spec_float) : Prop :=
  match f with
  | S754_zero _ | S754_finite _ _ _ => True
  | _ => False
  end.

(** Carries the sign [s] and is not NaN. *)
Definition SFsigned (s : bool) (f : spec_float) : Prop :=
  match f with
  | S754_zero s' | S754_infinity s' | S754_finite s' _ _ => s' = s
  | S754_nan => False
  end.

Definition nonneg (x : float) : Prop := SFnonneg (Prim2SF x).

(** A zero or NaN: what is left of a span of zero after a multiplication. *)
Definition SFzero_or_nan (f : spec_float) : Prop :=
  match f with
  | S754_zero _ | S754_nan => True
  | _ => False
  end.

Definition zero_or_nan (x : float) : Prop := SFzero_or_nan (Prim2SF x).

(** What a returned simplification satisfies. *)
Record simplified (out pts : list SvgPoint) : Prop := {
  simplified_sublist : out `sublist_of` pts;
  simplified_head : head out = head pts;
  simplified_last : last out = last pts
}.

(** The Euclidean distance from [point] to [(qx, qy)], as the last three
    lines of [pointToLineDistance] compute it. *)
Definition toward (point : SvgPoint) (qx qy : float) : float :=
  PrimFloat.sqrt ((x point - qx) * (x point - qx) + (y point - qy) * (y point - qy)).

(** A projected point at [(a, b)], for the examples. *)
Definition planar (a b : float) : SvgPoint :=
  {| x := a; y := b;
     original := {| lat := 0; lng := 0; elevation := None; timestamp := None |} |}.

(** A sample at (0,0) with the given elevation and time. *)
Definition sample (ele : option float) (time : option float) : GPXPoint :=
  {| lat := 0; lng := 0; elevation := ele;
     timestamp := match time with Some t => Some {| getTime := t |} | None => None end |}.

(** A sample at [(la, lo)] without elevation or time. *)
Definition at_ (la lo : float) : GPXPoint :=
  {| lat := la; lng := lo; elevation := None; timestamp := None |}.

(** [m] is a largest (smallest) element of [l]. *)
Definition is_max (m : float) (l : list float) : Prop :=
  In m l /\ Forall (fun v => (v <=? m)%float = true) l.
Definition is_min (m : float) (l : list float) : Prop :=
  In m l /\ Forall (fun v => (m <=? v)%float = true) l.

(** What [highest] satisfies after the elements [seen]. *)
Record highest_of (seen : list float) (highest : float) : Prop := {
  highest_number : JS.number highest;
  highest_above : Forall (fun v => (v <=? highest)%float = true) seen;
  highest_start : seen = [] -> highest = neg_infinity;
  highest_member : seen <> [] -> In highest seen
}.

(** What [lowest] satisfies after the elements [seen]. *)
Record lowest_of (seen : list float) (lowest : float) : Prop := {
  lowest_number : JS.number lowest;
  lowest_below : Forall (fun v => (lowest <=? v)%float = true) seen;
  lowest_start : seen = [] -> lowest = infinity;
  lowest_member : seen <> [] -> In lowest seen
}.

(** A zigzag of five points. *)
Definition zigzag : list SvgPoint :=
  [planar 0 0; planar 1 5; planar 2 0; planar 3 4; planar 4 0].

(** The track (0,0), (0,1), (1,1), as [parseGPXFile] would hand it over
    (the distance is left at 0). *)
Definition triangle : TrackData :=
  {| TrackUploader.name := "triangle";
     points := [at_ 0 0; at_ 0 1; at_ 1 1];
     bounds := computeBounds [at_ 0 0; at_ 0 1; at_ 1 1];
     metadata := {| distance := 0; duration := None; elevationGain := None |} |}.

(** Options that are invalid in every way the specification lists. *)
Definition invalidOptions : Options :=
  {| maxWidth := Some 0%float;
     maxHeight := Some (-600)%float;
     padding := None;
     simplify := None;
     simplifyTolerance := Some (-1)%float |}.

(** A recording of [n] samples at the same place. *)
Definition stationary (n : nat) : TrackData :=
  {| TrackUploader.name := "stationary";
     points := repeat (at_ 10 20) n;
     bounds := computeBounds (repeat (at_ 10 20) n);
     metadata := {| distance := 0; duration := None; elevationGain := None |} |}.

(** A library for the closed examples.  Its trigonometry is the small-angle
    approximation ([sin x = x], [cos x = 1], [atan2 y x = y / x]); its printers
    do not look at the number. *)
Definition smallAngle : Builtins :=
  {| Math_sin := fun x => x;
     Math_cos := fun _ => 1%float;
     Math_atan2 := fun y x => (y / x)%float;
     toFixed2 := fun _ => "#.##"%string;
     Number_toString := fun _ => "#"%string |}.

End Notions.

(** ** More notions *)

Module MoreNotions.
Import TrackUploader TrackToSVGConverter Notions.

(** [p] is within [tolerance] of the chord from [a] to [b], as [simplifyPath]
    tests it: its distance is not above the tolerance. *)
Definition within (tolerance : float) (a b p : SvgPoint) : Prop :=
  JS.gt (pointToLineDistance p a b) tolerance = false.

(** [chords tolerance pts out]: the run [pts] is cut into consecutive
    stretches [a, mid, b]; the points [mid] of each stretch are within
    [tolerance] of the chord from [a] to [b]; and [out] lists the cut points
    in order, each once. *)
Inductive chords (tolerance : float) : list SvgPoint -> list SvgPoint -> Prop :=
| chords_nil : chords tolerance [] []
| chords_one p : chords tolerance [p] [p]
| chords_cut a mid b rest out :
    Forall (within tolerance a b) mid ->
    chords tolerance (b :: rest) (b :: out) ->
    chords tolerance (a :: mid ++ b :: rest) (a :: b :: out).

(** A route path of the given length, not styled yet. *)
Definition route (pathLength : float) : StickyRouteMap.SVGPathElement :=
  {| StickyRouteMap.getTotalLength := pathLength;
     StickyRouteMap.style := {| StickyRouteMap.strokeDasharray := StickyRouteMap.none;
                                StickyRouteMap.strokeDashoffset := StickyRouteMap.none |} |}.

(** Three route paths of lengths 10, 20 and 30. *)
Definition threeRoutes : list (option StickyRouteMap.SVGPathElement) :=
  [Some (route 10); Some (route 20); Some (route 30)].

(** The styles of a path of length [pathLength] that is not drawn at all,
    and that is drawn in full. *)
Definition hidden (pathLength : float) : StickyRouteMap.Style :=
  {| StickyRouteMap.strokeDasharray := StickyRouteMap.px pathLength;
     StickyRouteMap.strokeDashoffset := StickyRouteMap.px pathLength |}.
Definition drawn (pathLength : float) : StickyRouteMap.Style :=
  {| StickyRouteMap.strokeDasharray := StickyRouteMap.px pathLength;
     StickyRouteMap.strokeDashoffset := StickyRouteMap.px 0 |}.

(** [JS.max_step] and [JS.min_step] on the specification of numbers. *)
Definition SFmax_step (h n : spec_float) : spec_float :=
  match n with
  | S754_nan => S754_nan
  | _ =>
      if SFltb h n then n
      else match n, h with
           | S754_zero false, S754_zero true => n
           | _, _ => h
           end
  end.

Definition SFmin_step (h n : spec_float) : spec_float :=
  match n with
  | S754_nan => S754_nan
  | _ =>
      if SFltb n h then n
      else match n, h with
           | S754_zero true, S754_zero false => n
           | _, _ => h
           end
  end.

End MoreNotions.

(** * Properties *)

#[local] Abbreviation number := JS.number.
#[local] Abbreviation finite := JS.finite.

(** ** The library functions on sample arguments *)

Module BuiltinSamples.

Example Math_round_samples :
  JS.Math_round 0.5 = 1%float
  /\ JS.Math_round 2.5 = 3%float
  /\ JS.Math_round (-2.5) = (-2)%float
  /\ JS.Math_round 0.25 = 0%float
  /\ Prim2SF (JS.Math_round (-0.5)) = S754_zero true
  /\ JS.Math_round 800.5 = 801%float
  /\ JS.Math_round 0x1p+60 = 0x1p+60%float
  /\ Prim2SF (JS.Math_round nan) = S754_nan
  /\ JS.Math_round infinity = infinity.
Proof. repeat split; reflexivity. Qed.

Example Math_max_min_samples :
  JS.Math_max [1; 3; 2]%float = 3%float
  /\ JS.Math_min [1; 3; 2]%float = 1%float
  /\ JS.Math_max [] = neg_infinity
  /\ JS.Math_min [] = infinity
  /\ Prim2SF (JS.Math_max [1; nan; 2]%float) = S754_nan
  /\ Prim2SF (JS.Math_max [neg_zero; 0]%float) = S754_zero false
  /\ Prim2SF (JS.Math_min [0; neg_zero]%float) = S754_zero true.
Proof. repeat split; reflexivity. Qed.

Example or_zero_samples :
  JS.or_zero None = 0%float
  /\ JS.or_zero (Some 12.5%float) = 12.5%float
  /\ JS.or_zero (Some (-3)%float) = (-3)%float
  /\ JS.or_zero (Some nan) = 0%float
  /\ Prim2SF (JS.or_zero (Some neg_zero)) = S754_zero false.
Proof. repeat split; reflexivity. Qed.

End BuiltinSamples.

(** ** The order on numbers

    The comparisons of the processor are specified by [SFcompare] on
    [spec_float]; the facts below are read off that specification. *)

Module FloatOrder.
Import Notions.

Ltac cmp_cases :=
  repeat match goal with
  | |- context [Z.compare ?a ?b] => destruct (Z.compare_spec a b)
  | H : context [Z.compare ?a ?b] |- _ => destruct (Z.compare_spec a b)
  | |- context [Pos.compare_cont Eq ?a ?b] =>
      change (Pos.compare_cont Eq a b) with (Pos.compare a b);
      destruct (Pos.compare_spec a b)
  | H : context [Pos.compare_cont Eq ?a ?b] |- _ =>
      change (Pos.compare_cont Eq a b) with (Pos.compare a b) in H;
      destruct (Pos.compare_spec a b)
  end.

Ltac sf_order :=
  unfold SFleb, SFltb, SFeqb, SFcompare in *;
  repeat match goal with
  | x : spec_float |- _ => destruct x
  | s : bool |- _ => destruct s
  end;
  simpl in *; try discriminate; try reflexivity; try tauto; try congruence;
  cmp_cases; simpl in *; subst; try discriminate; try reflexivity; try lia.

Lemma SFle_lt_trans x y z : SFleb x y = true -> SFltb y z = true -> SFltb x z = true.
Proof. intros; sf_order. Qed.

Lemma SFle_trans x y z : SFleb x y = true -> SFleb y z = true -> SFleb x z = true.
Proof. intros; sf_order. Qed.

Lemma SFle_lt_absurd x y : SFleb x y = true -> SFltb y x = true -> False.
Proof. intros; sf_order. Qed.

Lemma SFlt_le x y : SFltb x y = true -> SFleb x y = true.
Proof. intros; sf_order. Qed.

Lemma SFnlt_le x y :
  x <> S754_nan -> y <> S754_nan -> SFltb x y = false -> SFleb y x = true.
Proof. intros; sf_order. Qed.

Lemma SFle_refl x : x <> S754_nan -> SFleb x x = true.
Proof. intros; sf_order. Qed.

Lemma finite_number x : finite x -> number x.
Proof. unfold finite, number. destruct (Prim2SF x); intros; congruence || tauto. Qed.

Lemma le_lt_trans x y z :
  (x <=? y)%float = true -> (y <? z)%float = true -> (x <? z)%float = true.
Proof. rewrite FloatAxioms.leb_spec, !FloatAxioms.ltb_spec. apply SFle_lt_trans. Qed.

Lemma le_trans x y z :
  (x <=? y)%float = true -> (y <=? z)%float = true -> (x <=? z)%float = true.
Proof. rewrite !FloatAxioms.leb_spec. apply SFle_trans. Qed.

Lemma le_lt_absurd x y : (x <=? y)%float = true -> (y <? x)%float = true -> False.
Proof. rewrite FloatAxioms.leb_spec, FloatAxioms.ltb_spec. apply SFle_lt_absurd. Qed.

Lemma lt_le x y : (x <? y)%float = true -> (x <=? y)%float = true.
Proof. rewrite FloatAxioms.leb_spec, FloatAxioms.ltb_spec. apply SFlt_le. Qed.

Lemma nlt_le x y :
  number x -> number y -> (x <? y)%float = false -> (y <=? x)%float = true.
Proof. rewrite FloatAxioms.leb_spec, FloatAxioms.ltb_spec. apply SFnlt_le. Qed.

Lemma le_refl x : number x -> (x <=? x)%float = true.
Proof. rewrite FloatAxioms.leb_spec. apply SFle_refl. Qed.

Lemma is_nan_number x : is_nan x = false <-> number x.
Proof.
  unfold is_nan, number. rewrite FloatAxioms.eqb_spec. unfold SFeqb.
  destruct (Prim2SF x) as [s|s| |s m e]; simpl.
  - split; [discriminate | reflexivity].
  - destruct s; split; intros; (discriminate || reflexivity).
  - split; [discriminate | congruence].
  - destruct s; rewrite Z.compare_refl;
      change (Pos.compare_cont Eq m m) with (Pos.compare m m);
      rewrite Pos.compare_refl; split; intros; (discriminate || reflexivity).
Qed.

End FloatOrder.

(** ** Arithmetic on numbers without NaN

    Read off the specification of the operations on [spec_float]. *)

Module FloatArith.
Import Notions FloatOrder.

Lemma shr_1_nonneg mrs : (0 <= shr_m mrs)%Z -> (0 <= shr_m (shr_1 mrs))%Z.
Proof. destruct mrs as [[|[p|p|]|[p|p|]] r s]; simpl; lia. Qed.

Lemma iter_shr_1_nonneg p : forall mrs,
  (0 <= shr_m mrs)%Z -> (0 <= shr_m (SpecFloat.iter_pos shr_1 p mrs))%Z.
Proof.
  induction p as [p IH|p IH|]; simpl; intros mrs H.
  - now apply IH, IH, shr_1_nonneg.
  - now apply IH, IH.
  - now apply shr_1_nonneg.
Qed.

Lemma shr_fexp_nonneg m e l :
  (0 <= m)%Z -> (0 <= shr_m (fst (shr_fexp prec emax m e l)))%Z.
Proof.
  intros H. unfold shr_fexp, shr.
  assert (H0 : (0 <= shr_m (shr_record_of_loc m l))%Z) by (destruct l as [|[]]; exact H).
  destruct (_ - e)%Z; simpl; auto using iter_shr_1_nonneg.
Qed.

Lemma round_nearest_even_nonneg m l : (0 <= m)%Z -> (0 <= round_nearest_even m l)%Z.
Proof. destruct l as [|[]]; simpl; try destruct (Z.even m); lia. Qed.

Lemma binary_round_aux_signed s m e l :
  (0 <= m)%Z -> SFsigned s (binary_round_aux prec emax s m e l).
Proof.
  intros H. unfold binary_round_aux.
  pose proof (shr_fexp_nonneg m e l H) as H1.
  destruct (shr_fexp prec emax m e l) as [mrs' e']. simpl in H1.
  pose proof (shr_fexp_nonneg _ e' loc_Exact
                (round_nearest_even_nonneg _ (loc_of_shr_record mrs') H1)) as H2.
  destruct (shr_fexp prec emax _ e' loc_Exact) as [mrs'' e'']. simpl in H2.
  destruct (shr_m mrs''); simpl; [reflexivity | | lia].
  destruct (Z.leb _ _); reflexivity.
Qed.

Lemma binary_round_signed s m e : SFsigned s (binary_round prec emax s m e).
Proof.
  unfold binary_round. destruct (shl_align _ _ _) as [mz ez].
  apply binary_round_aux_signed. lia.
Qed.

Lemma binary_normalize_number m e : binary_normalize prec emax m e false <> S754_nan.
Proof.
  destruct m as [|p|p]; simpl; [discriminate| |];
    match goal with |- binary_round _ _ ?s ?m ?e <> _ =>
      pose proof (binary_round_signed s m e) as H;
      destruct (binary_round prec emax s m e); simpl in H; congruence || tauto
    end.
Qed.

Lemma SFsigned_nonneg f : SFsigned false f -> SFnonneg f.
Proof. destruct f as [[]|[]| |[] ? ?]; simpl; congruence || tauto. Qed.

Lemma SFsub_finite x y : SFfinite x -> SFfinite y -> SF64sub x y <> S754_nan.
Proof.
  destruct x as [sx|sx| |sx mx ex], y as [sy|sy| |sy my ey]; simpl; try tauto; intros _ _.
  - destruct sx, sy; discriminate.
  - discriminate.
  - discriminate.
  - apply binary_normalize_number.
Qed.

Lemma SFsub_diag x : SFfinite x -> SF64sub x x = S754_zero false.
Proof.
  destruct x as [s|s| |s m e]; simpl; try tauto; intros _.
  - now destruct s.
  - now rewrite Z.sub_diag.
Qed.

Lemma SFmul_self x : x <> S754_nan -> SFnonneg (SF64mul x x).
Proof.
  destruct x as [s|s| |s m e]; simpl; intros H; try congruence.
  - now destruct s.
  - now destruct s.
  - apply SFsigned_nonneg.
    replace (xorb s s) with false by (now destruct s).
    apply binary_round_aux_signed. lia.
Qed.

Lemma SFadd_nonneg x y : SFnonneg x -> SFnonneg y -> SFnonneg (SF64add x y).
Proof.
  destruct x as [[]|[]| |[] mx ex], y as [[]|[]| |[] my ey]; simpl; try tauto; intros _ _.
  apply SFsigned_nonneg, binary_round_signed.
Qed.

Lemma SFsqrt_nonneg x : SFnonneg x -> SFnonneg (SF64sqrt x).
Proof.
  destruct x as [[]|[]| |[] m e]; simpl; try tauto; intros _.
  unfold SFsqrt_core_binary.
  match goal with |- context [Z.sqrtrem ?m'] =>
    pose proof (Z.sqrt_nonneg m') as Hq; rewrite <- Z.sqrtrem_sqrt in Hq;
    destruct (Z.sqrtrem m') as [q r]
  end.
  simpl in Hq. apply SFsigned_nonneg, binary_round_aux_signed. exact Hq.
Qed.

(** The same facts on the primitive operations. *)

Lemma nonneg_number x : nonneg x -> number x.
Proof. unfold nonneg, number. destruct (Prim2SF x) as [[]|[]| |[] ? ?]; simpl; congruence || tauto. Qed.

Lemma sub_finite x y : finite x -> finite y -> number (x - y)%float.
Proof. unfold number. rewrite FloatAxioms.sub_spec. apply SFsub_finite. Qed.

Lemma sub_diag x : finite x -> (x - x)%float = 0%float.
Proof.
  intros H. apply Prim2SF_inj. rewrite FloatAxioms.sub_spec. now apply SFsub_diag.
Qed.

Lemma mul_self x : number x -> nonneg (x * x)%float.
Proof. unfold nonneg. rewrite FloatAxioms.mul_spec. apply SFmul_self. Qed.

Lemma add_nonneg x y : nonneg x -> nonneg y -> nonneg (x + y)%float.
Proof. unfold nonneg. rewrite FloatAxioms.add_spec. apply SFadd_nonneg. Qed.

Lemma sqrt_nonneg x : nonneg x -> nonneg (PrimFloat.sqrt x).
Proof. unfold nonneg. rewrite FloatAxioms.sqrt_spec. apply SFsqrt_nonneg. Qed.

(** Zeros and NaN. *)

Lemma SFmul_zero_or_nan x y : SFzero_or_nan x -> SFzero_or_nan (SF64mul x y).
Proof. destruct x as [sx|sx| |sx mx ex], y as [sy|sy| |sy my ey]; simpl; tauto. Qed.

Lemma SFdiv_zero_or_nan x y :
  SFzero_or_nan x -> SFzero_or_nan y -> SF64div x y = S754_nan.
Proof. destruct x as [sx|sx| |sx mx ex], y as [sy|sy| |sy my ey]; simpl; tauto. Qed.

Lemma SFsub_back a z :
  SFfinite a -> SFzero_or_nan z -> SFzero_or_nan (SF64sub a (SF64sub a z)).
Proof.
  destruct a as [sa|sa| |sa ma ea], z as [sz|sz| |sz mz ez]; simpl; try tauto; intros _ _.
  - destruct sa, sz; exact I.
  - now rewrite Z.sub_diag.
Qed.

Lemma nan_spec x : Prim2SF x = S754_nan -> x = nan.
Proof. intros H. now apply Prim2SF_inj. Qed.

Lemma zero_zero_or_nan : zero_or_nan 0%float.
Proof. exact I. Qed.

Lemma mul_zero_or_nan x y : zero_or_nan x -> zero_or_nan (x * y)%float.
Proof. unfold zero_or_nan. rewrite FloatAxioms.mul_spec. apply SFmul_zero_or_nan. Qed.

Lemma div_zero_or_nan x y : zero_or_nan x -> zero_or_nan y -> (x / y)%float = nan.
Proof.
  intros Hx Hy. apply nan_spec. rewrite FloatAxioms.div_spec. now apply SFdiv_zero_or_nan.
Qed.

Lemma sub_back a z : finite a -> zero_or_nan z -> zero_or_nan (a - (a - z))%float.
Proof.
  unfold zero_or_nan. rewrite !FloatAxioms.sub_spec. apply SFsub_back.
Qed.

Lemma sub_nan_r x : (x - nan)%float = nan.
Proof.
  apply nan_spec. rewrite FloatAxioms.sub_spec.
  change (Prim2SF nan) with S754_nan. now destruct (Prim2SF x).
Qed.

Lemma mul_nan_l x : (nan * x)%float = nan.
Proof.
  apply nan_spec. rewrite FloatAxioms.mul_spec.
  change (Prim2SF nan) with S754_nan. reflexivity.
Qed.

Lemma div_nan_r x : (x / nan)%float = nan.
Proof.
  apply nan_spec. rewrite FloatAxioms.div_spec.
  change (Prim2SF nan) with S754_nan. now destruct (Prim2SF x).
Qed.

Lemma gt_nan_l x : JS.gt nan x = false.
Proof.
  unfold JS.gt. rewrite FloatAxioms.ltb_spec.
  change (Prim2SF nan) with S754_nan. unfold SFltb, SFcompare. now destruct (Prim2SF x).
Qed.

Lemma zero_or_nan_cases x :
  zero_or_nan x -> x = 0%float \/ x = neg_zero \/ x = nan.
Proof.
  unfold zero_or_nan.
  destruct (Prim2SF x) as [[]|?| |? ? ?] eqn:E; simpl; try tauto; intros _.
  - right. left. apply Prim2SF_inj. now rewrite E.
  - left. apply Prim2SF_inj. now rewrite E.
  - right. right. apply Prim2SF_inj. now rewrite E.
Qed.

End FloatArith.

(** ** Track metrics *)

Module Metrics.
Import TrackUploader Notions FloatOrder FloatArith.

Lemma consecutive_snoc {A} (l : list A) (p q : A) :
  consecutive (l ++ [p; q]) = consecutive (l ++ [p]) ++ [(p, q)].
Proof.
  induction l as [|a l IH]; [reflexivity|].
  destruct l as [|b l]; [reflexivity|].
  simpl in *. now rewrite IH.
Qed.

Lemma gainStep_no_elevation gain p q :
  elevation p = None -> elevation q = None -> gainStep gain (p, q) = gain.
Proof. unfold gainStep. simpl. now intros -> ->. Qed.

(** Without any elevation the loop leaves [elevationGain] at its start value:
    the guard [points.some(...)] changes nothing. *)
Lemma gain_loop_no_elevation (pts : list GPXPoint) : forall gain,
  existsb hasElevation pts = false ->
  fold_left gainStep (consecutive pts) gain = gain.
Proof.
  induction pts as [|a l IH]; intros gain H; [reflexivity|].
  destruct l as [|b l]; [reflexivity|].
  simpl in H. apply orb_false_iff in H as [Ha H].
  change (consecutive (a :: b :: l)) with ((a, b) :: consecutive (b :: l)).
  cbn [fold_left]. rewrite gainStep_no_elevation.
  - now apply IH.
  - unfold hasElevation in Ha. now destruct (elevation a).
  - simpl in H. apply orb_false_iff in H as [Hb _].
    unfold hasElevation in Hb. now destruct (elevation b).
Qed.

Lemma accumulatedGain_loop (pts : list GPXPoint) :
  accumulatedGain pts = fold_left gainStep (consecutive pts) 0%float.
Proof.
  unfold accumulatedGain. destruct (existsb hasElevation pts) eqn:E; [reflexivity|].
  symmetry. now apply gain_loop_no_elevation.
Qed.

Lemma not_truthy x : JS.truthy x = false -> JS.lt x 0 = false /\ JS.gt x 0 = false.
Proof. unfold JS.truthy, JS.lt, JS.gt. now intros [? ?]%orb_false_iff. Qed.

(** C1, as the code has it: the gain is accumulated pair by pair over
    consecutive samples, each step depending on the two samples of the pair
    only; a missing elevation is read as [0] ([elevation || 0]).  So a pair
    without any elevation adds nothing, a pair of two (nonzero) elevations
    adds their difference when it is positive, and a pair with one elevation
    is compared against [0]. *)
Theorem elevation_gain_between_consecutive (pts : list GPXPoint) (p q : GPXPoint) :
  accumulatedGain (pts ++ [p; q]) = gainStep (accumulatedGain (pts ++ [p])) (p, q)
  /\ (forall gain, elevation p = None -> elevation q = None ->
      gainStep gain (p, q) = gain)
  /\ (forall gain e1 e2, elevation p = Some e1 -> elevation q = Some e2 ->
      JS.truthy e1 = true -> JS.truthy e2 = true ->
      gainStep gain (p, q) = if JS.gt e2 e1 then (gain + (e2 - e1))%float else gain)
  /\ (forall gain e, elevation p = None -> elevation q = Some e ->
      gainStep gain (p, q) = if JS.gt e 0 then (gain + (e - 0))%float else gain)
  /\ (forall gain e, elevation p = Some e -> elevation q = None ->
      gainStep gain (p, q) = if JS.lt e 0 then (gain + (0 - e))%float else gain).
Proof.
  repeat split.
  - now rewrite !accumulatedGain_loop, consecutive_snoc, fold_left_app.
  - intros gain. apply gainStep_no_elevation.
  - intros gain e1 e2 Hp Hq T1 T2. unfold gainStep. simpl. now rewrite Hp, Hq; simpl; rewrite T1, T2.
  - intros gain e Hp Hq. unfold gainStep. simpl. rewrite Hp, Hq. simpl.
    destruct (JS.truthy e) eqn:T; [reflexivity|].
    apply not_truthy in T as [_ ->]. reflexivity.
  - intros gain e Hp Hq. unfold gainStep. simpl. rewrite Hp, Hq. simpl.
    destruct (JS.truthy e) eqn:T; [reflexivity|].
    apply not_truthy in T as [-> _]. reflexivity.
Qed.

Lemma elevation_gain_between_consecutive_witness :
  accumulatedGain [sample (Some 50%float) None; sample None None; sample (Some 100%float) None]
  = gainStep (accumulatedGain [sample (Some 50%float) None; sample None None])
             (sample None None, sample (Some 100%float) None)
  /\ gainStep 7 (sample None None, sample (Some 100%float) None)
     = (if JS.gt 100 0 then 7 + (100 - 0) else 7)%float
  /\ gainStep 7 (sample (Some 50%float) None, sample (Some 100%float) None)
     = (if JS.gt 100 50 then 7 + (100 - 50) else 7)%float.
Proof.
  split.
  - exact (proj1 (elevation_gain_between_consecutive
                    [sample (Some 50%float) None] (sample None None)
                    (sample (Some 100%float) None))).
  - split.
    + exact (proj1 (proj2 (proj2 (proj2 (elevation_gain_between_consecutive
               [] (sample None None) (sample (Some 100%float) None)))))
               7%float 100%float eq_refl eq_refl).
    + exact (proj1 (proj2 (proj2 (elevation_gain_between_consecutive
               [] (sample (Some 50%float) None) (sample (Some 100%float) None))))
               7%float 50%float 100%float eq_refl eq_refl eq_refl eq_refl).
Defined.

(** C1 fails as stated: a pair whose first sample lacks elevation adds the
    whole elevation of the second, and after a gap the climb is measured from
    the substituted [0]. *)
Lemma elevation_gain_reads_missing_as_zero :
  elevation (sample None None) = None
  /\ accumulatedGain [sample None None; sample (Some 100%float) None] = 100%float
  /\ accumulatedGain [sample (Some 100%float) None; sample None None;
                      sample (Some 100%float) None] = 100%float.
Proof. repeat split; reflexivity. Qed.

(** C6, as the code has it: the reported gain is absent exactly when the
    accumulated gain is not above [0]; a reported gain is the accumulated
    gain, is positive, and some sample carries elevation; without elevation
    nothing is reported. *)
Theorem elevation_gain_reported_when_positive (pts : list GPXPoint) :
  (reportedGain pts = None <-> JS.gt (accumulatedGain pts) 0 = false)
  /\ (forall g, reportedGain pts = Some g ->
      g = accumulatedGain pts /\ JS.gt g 0 = true /\ existsb hasElevation pts = true)
  /\ (existsb hasElevation pts = false -> reportedGain pts = None).
Proof.
  assert (Hno : existsb hasElevation pts = false -> reportedGain pts = None).
  { intros H. unfold reportedGain, accumulatedGain. now rewrite H. }
  unfold reportedGain in *. repeat split.
  - destruct (JS.gt (accumulatedGain pts) 0); [discriminate | reflexivity].
  - now intros ->.
  - destruct (JS.gt (accumulatedGain pts) 0); congruence.
  - destruct (JS.gt (accumulatedGain pts) 0) eqn:E; [|discriminate].
    inversion H; subst. exact E.
  - destruct (existsb hasElevation pts); [reflexivity|].
    rewrite Hno in H by reflexivity. discriminate.
  - exact Hno.
Qed.

Lemma elevation_gain_reported_when_positive_witness :
  50%float = accumulatedGain [sample (Some 100%float) None; sample (Some 150%float) None]
  /\ JS.gt 50 0 = true
  /\ existsb hasElevation [sample (Some 100%float) None; sample (Some 150%float) None] = true.
Proof.
  exact (proj1 (proj2 (elevation_gain_reported_when_positive
           [sample (Some 100%float) None; sample (Some 150%float) None]))
           50%float eq_refl).
Defined.

(** C6 fails as stated: on a flat (or descending) track with elevation on
    every sample the accumulated gain is [0] and nothing is reported. *)
Lemma zero_gain_is_reported_absent :
  existsb hasElevation [sample (Some 100%float) None; sample (Some 100%float) None] = true
  /\ accumulatedGain [sample (Some 100%float) None; sample (Some 100%float) None] = 0%float
  /\ reportedGain [sample (Some 100%float) None; sample (Some 100%float) None] = None
  /\ reportedGain [sample (Some 100%float) None; sample (Some 50%float) None] = None.
Proof. repeat split; reflexivity. Qed.

(** The timestamps of the samples that have one, in track order. *)
Lemma firstTime_head (pts : list GPXPoint) : firstTime pts = head (omap timestamp pts).
Proof.
  unfold firstTime. induction pts as [|p l IH]; [reflexivity|].
  cbn [find omap list_omap]. unfold hasTimestamp at 1.
  destruct (timestamp p) eqn:E; [exact E | exact IH].
Qed.

Lemma omap_rev {A B} (f : A -> option B) (l : list A) : omap f (rev l) = rev (omap f l).
Proof.
  induction l as [|a l IH]; [reflexivity|].
  simpl. rewrite omap_app, IH. simpl.
  destruct (f a); simpl; [reflexivity | apply app_nil_r].
Qed.

Lemma head_rev {A} (l : list A) : head (rev l) = last l.
Proof.
  destruct l as [|a l] using rev_ind; [reflexivity|].
  now rewrite rev_app_distr, last_snoc.
Qed.

Lemma lastTime_last (pts : list GPXPoint) : lastTime pts = last (omap timestamp pts).
Proof.
  change (lastTime pts) with (firstTime (rev pts)).
  now rewrite firstTime_head, omap_rev, head_rev.
Qed.

(** C7, as the code has it: with [ts] the timestamps present, in track order,
    the duration is the last of [ts] minus the first of [ts]; it is absent
    exactly when no sample is timestamped; with one timestamped sample it is
    that time minus itself, [0] for a valid date. *)
Theorem duration_last_minus_first (pts : list GPXPoint) :
  let ts := omap timestamp pts in
  computeDuration pts =
    match head ts, last ts with
    | Some first, Some last_ => Some (getTime last_ - getTime first)%float
    | _, _ => None
    end
  /\ (computeDuration pts = None <-> ts = [])
  /\ (forall t, ts = [t] ->
      computeDuration pts = Some (getTime t - getTime t)%float
      /\ (finite (getTime t) -> computeDuration pts = Some 0%float)).
Proof.
  intros ts.
  assert (H : computeDuration pts =
    match head ts, last ts with
    | Some first, Some last_ => Some (getTime last_ - getTime first)%float
    | _, _ => None
    end).
  { unfold computeDuration. now rewrite firstTime_head, lastTime_last. }
  repeat split.
  - exact H.
  - rewrite H. destruct ts as [|t l]; [reflexivity|].
    simpl. destruct (last (t :: l)) eqn:E; [discriminate|].
    now apply last_None in E.
  - intros ->. now rewrite H.
  - rewrite H, H0. reflexivity.
  - intros Hfin. rewrite H, H0. simpl. now rewrite sub_diag.
Qed.

Lemma duration_last_minus_first_witness :
  computeDuration [sample None None; sample None (Some 1000%float)] = Some 0%float.
Proof.
  exact (proj2 (proj2 (proj2 (duration_last_minus_first
           [sample None None; sample None (Some 1000%float)]))
           {| getTime := 1000 |} eq_refl) I).
Defined.

(** C7 fails as stated: one timestamped sample gives a duration, [0]. *)
Lemma single_timestamp_has_duration :
  computeDuration [sample None (Some 1000%float)] = Some 0%float
  /\ computeDuration [sample None None; sample None (Some 1000%float); sample None None]
     = Some 0%float.
Proof. split; reflexivity. Qed.

(** Timestamps out of order: the duration is negative. *)
Example duration_out_of_order :
  computeDuration [sample None (Some 5000%float); sample None (Some 9000%float);
                   sample None (Some 2000%float)] = Some (-3000)%float.
Proof. reflexivity. Qed.

End Metrics.

(** ** Bounds *)

Module BoundsProofs.
Import TrackUploader Notions FloatOrder FloatArith.

Lemma is_pos_zero_spec x : JS.is_pos_zero x = true -> Prim2SF x = S754_zero false.
Proof.
  unfold JS.is_pos_zero. rewrite classify_spec. unfold SF64classify, SFclassify.
  destruct (Prim2SF x) as [[]|[]| |[] m e]; try discriminate; try reflexivity;
    destruct (Z.eqb _ _); discriminate.
Qed.

Lemma is_neg_zero_spec x : JS.is_neg_zero x = true -> Prim2SF x = S754_zero true.
Proof.
  unfold JS.is_neg_zero. rewrite classify_spec. unfold SF64classify, SFclassify.
  destruct (Prim2SF x) as [[]|[]| |[] m e]; try discriminate; try reflexivity;
    destruct (Z.eqb _ _); discriminate.
Qed.

Lemma neg_zero_le_pos_zero h n :
  JS.is_pos_zero n = true -> JS.is_neg_zero h = true ->
  (h <=? n)%float = true /\ (n <=? h)%float = true.
Proof.
  intros Hn%is_pos_zero_spec Hh%is_neg_zero_spec.
  rewrite !FloatAxioms.leb_spec, Hn, Hh. split; reflexivity.
Qed.

Lemma le_neg_infinity n : (n <=? neg_infinity)%float = true -> n = neg_infinity.
Proof.
  rewrite FloatAxioms.leb_spec. intros H. apply Prim2SF_inj.
  change (Prim2SF neg_infinity) with (S754_infinity true) in *.
  destruct (Prim2SF n) as [s|[]| |[] m e]; try discriminate; reflexivity.
Qed.

Lemma ge_infinity n : (infinity <=? n)%float = true -> n = infinity.
Proof.
  rewrite FloatAxioms.leb_spec. intros H. apply Prim2SF_inj.
  change (Prim2SF infinity) with (S754_infinity false) in *.
  destruct (Prim2SF n) as [s|[]| |[] m e]; try discriminate; reflexivity.
Qed.

Lemma Forall_le_weaken (seen : list float) (h n : float) :
  (h <=? n)%float = true ->
  Forall (fun v => (v <=? h)%float = true) seen ->
  Forall (fun v => (v <=? n)%float = true) seen.
Proof.
  intros Hhn. apply List.Forall_impl. intros v Hv. exact (le_trans _ _ _ Hv Hhn).
Qed.

Lemma max_step_highest seen h n :
  number n -> highest_of seen h -> highest_of (seen ++ [n]) (JS.max_step h n).
Proof.
  intros Hn [Hh Habove Hstart Hmem]. unfold JS.max_step.
  apply is_nan_number in Hn as Hnan. rewrite Hnan.
  assert (Hnew : forall h', (h <=? n)%float = true -> h' = n -> highest_of (seen ++ [n]) h').
  { intros h' Hle ->. split; trivial.
    - apply Forall_app. split; [now apply (Forall_le_weaken seen h)|].
      constructor; [now apply le_refl | constructor].
    - intros H. now apply app_eq_nil in H as [_ ?].
    - intros _. apply in_or_app. right. now left. }
  destruct (h <? n)%float eqn:Hlt; [apply Hnew; [now apply lt_le | reflexivity]|].
  destruct (JS.is_pos_zero n && JS.is_neg_zero h) eqn:Hz.
  { apply andb_true_iff in Hz as [Z1 Z2].
    apply Hnew; [apply (neg_zero_le_pos_zero h n Z1 Z2) | reflexivity]. }
  assert (Hge : (n <=? h)%float = true) by now apply nlt_le.
  split; trivial.
  - apply Forall_app. split; [exact Habove | now repeat constructor].
  - intros H. now apply app_eq_nil in H as [_ ?].
  - intros _. apply in_or_app.
    destruct seen as [|v seen']; [right | left; apply Hmem; discriminate].
    rewrite (Hstart eq_refl) in Hge |- *. left. now apply le_neg_infinity.
Qed.

Lemma fold_max_step_highest l : forall seen h,
  Forall number l -> highest_of seen h ->
  highest_of (seen ++ l) (fold_left JS.max_step l h).
Proof.
  induction l as [|n l IH]; intros seen h Hl Hh.
  - now rewrite app_nil_r.
  - inversion Hl; subst. simpl.
    replace (seen ++ n :: l) with ((seen ++ [n]) ++ l) by now rewrite <- app_assoc.
    apply IH; [assumption | now apply max_step_highest].
Qed.

Lemma Math_max_is_max (l : list float) :
  l <> [] -> Forall number l -> is_max (JS.Math_max l) l.
Proof.
  intros Hne Hl.
  destruct (fold_max_step_highest l [] neg_infinity Hl) as [_ Habove _ Hmem].
  { split; [discriminate | constructor | reflexivity | congruence]. }
  split; [now apply Hmem | exact Habove].
Qed.

Lemma Forall_ge_weaken (seen : list float) (h n : float) :
  (n <=? h)%float = true ->
  Forall (fun v => (h <=? v)%float = true) seen ->
  Forall (fun v => (n <=? v)%float = true) seen.
Proof.
  intros Hnh. apply List.Forall_impl. intros v Hv. exact (le_trans _ _ _ Hnh Hv).
Qed.

Lemma min_step_lowest seen h n :
  number n -> lowest_of seen h -> lowest_of (seen ++ [n]) (JS.min_step h n).
Proof.
  intros Hn [Hh Hbelow Hstart Hmem]. unfold JS.min_step.
  apply is_nan_number in Hn as Hnan. rewrite Hnan.
  assert (Hnew : forall h', (n <=? h)%float = true -> h' = n -> lowest_of (seen ++ [n]) h').
  { intros h' Hle ->. split; trivial.
    - apply Forall_app. split; [now apply (Forall_ge_weaken seen h)|].
      constructor; [now apply le_refl | constructor].
    - intros H. now apply app_eq_nil in H as [_ ?].
    - intros _. apply in_or_app. right. now left. }
  destruct (n <? h)%float eqn:Hlt; [apply Hnew; [now apply lt_le | reflexivity]|].
  destruct (JS.is_neg_zero n && JS.is_pos_zero h) eqn:Hz.
  { apply andb_true_iff in Hz as [Z1 Z2].
    apply Hnew; [apply (neg_zero_le_pos_zero n h Z2 Z1) | reflexivity]. }
  assert (Hge : (h <=? n)%float = true) by now apply nlt_le.
  split; trivial.
  - apply Forall_app. split; [exact Hbelow | now repeat constructor].
  - intros H. now apply app_eq_nil in H as [_ ?].
  - intros _. apply in_or_app.
    destruct seen as [|v seen']; [right | left; apply Hmem; discriminate].
    rewrite (Hstart eq_refl) in Hge |- *. left. now apply ge_infinity.
Qed.

Lemma fold_min_step_lowest l : forall seen h,
  Forall number l -> lowest_of seen h ->
  lowest_of (seen ++ l) (fold_left JS.min_step l h).
Proof.
  induction l as [|n l IH]; intros seen h Hl Hh.
  - now rewrite app_nil_r.
  - inversion Hl; subst. simpl.
    replace (seen ++ n :: l) with ((seen ++ [n]) ++ l) by now rewrite <- app_assoc.
    apply IH; [assumption | now apply min_step_lowest].
Qed.

Lemma Math_min_is_min (l : list float) :
  l <> [] -> Forall number l -> is_min (JS.Math_min l) l.
Proof.
  intros Hne Hl.
  destruct (fold_min_step_lowest l [] infinity Hl) as [_ Hbelow _ Hmem].
  { split; [discriminate | constructor | reflexivity | congruence]. }
  split; [now apply Hmem | exact Hbelow].
Qed.



(** The track (0,0), (0,1), (1,1) and a one-point track. *)
Example computeBounds_samples :
  computeBounds [at_ 0 0; at_ 0 1; at_ 1 1]
  = {| north := 1; south := 0; east := 1; west := 0 |}
  /\ computeBounds [at_ 10 20] = {| north := 10; south := 10; east := 20; west := 20 |}.
Proof. split; reflexivity. Qed.

End BoundsProofs.

(** ** The projection *)

Module Projection.
Import TrackUploader CoordinateTransform Notions FloatOrder FloatArith.

(** With a latitude span of zero, a point at that latitude has no [y]. *)
Lemma gpsToSVG_zero_lat_span (this : CoordinateTransform.t) (la lo : float) :
  finite (south (bounds this)) -> north (bounds this) = south (bounds this) ->
  la = south (bounds this) ->
  y (gpsToSVG this la lo) = nan.
Proof.
  intros Hfin Hns ->. unfold gpsToSVG. cbn [y]. rewrite Hns, sub_diag by assumption.
  rewrite (div_zero_or_nan _ _).
  - now rewrite sub_nan_r, mul_nan_l.
  - apply sub_back; [assumption | apply mul_zero_or_nan, zero_zero_or_nan].
  - apply mul_zero_or_nan, zero_zero_or_nan.
Qed.

(** With a longitude span of zero, a point at that longitude has no [x]. *)
Lemma gpsToSVG_zero_lng_span (this : CoordinateTransform.t) (la lo : float) :
  finite (west (bounds this)) -> east (bounds this) = west (bounds this) ->
  lo = west (bounds this) ->
  x (gpsToSVG this la lo) = nan.
Proof.
  intros Hfin Hew ->. unfold gpsToSVG. cbn [x]. rewrite Hew, sub_diag by assumption.
  rewrite (div_zero_or_nan _ _).
  - now rewrite mul_nan_l.
  - apply sub_back; [assumption | apply mul_zero_or_nan, zero_zero_or_nan].
  - apply mul_zero_or_nan, zero_zero_or_nan.
Qed.

Lemma Math_round_nan : JS.Math_round nan = nan.
Proof. reflexivity. Qed.

(** The canvas of bounds that are a single point: the aspect ratio is [0/0]. *)
Lemma canvas_single_point (B : Builtins) (b : Bounds) (maxWidth maxHeight : float) :
  finite (south b) -> finite (west b) -> north b = south b -> east b = west b ->
  calculateOptimalDimensions B b maxWidth maxHeight
  = {| dim_width := JS.Math_round maxWidth; dim_height := nan |}.
Proof.
  intros Hs Hw Hns Hew. unfold calculateOptimalDimensions.
  assert (Ha : aspectRatio B b = nan).
  { unfold aspectRatio. rewrite Hns, Hew, !sub_diag by assumption.
    apply div_zero_or_nan; [apply mul_zero_or_nan|]; apply zero_zero_or_nan. }
  rewrite Ha, div_nan_r, gt_nan_l. now rewrite Math_round_nan.
Qed.


(** The two branches of [calculateOptimalDimensions]. *)
Lemma calculateOptimalDimensions_cases (B : Builtins) (b : Bounds) (maxWidth maxHeight : float) :
  calculateOptimalDimensions B b maxWidth maxHeight =
  if JS.gt (maxWidth / aspectRatio B b) maxHeight
  then {| dim_width := JS.Math_round (maxHeight * aspectRatio B b);
          dim_height := JS.Math_round maxHeight |}
  else {| dim_width := JS.Math_round maxWidth;
          dim_height := JS.Math_round (maxWidth / aspectRatio B b) |}.
Proof.
  unfold calculateOptimalDimensions.
  now destruct (JS.gt (maxWidth / aspectRatio B b) maxHeight).
Qed.




(** The track (0,0), (0,1), (1,1) on a 100 x 100 budget, with a cosine of 1
    at the centre latitude: a square canvas. *)
Example canvas_square (B : Builtins) :
  aspectRatio B (computeBounds [at_ 0 0; at_ 0 1; at_ 1 1]) = 1%float ->
  calculateOptimalDimensions B (computeBounds [at_ 0 0; at_ 0 1; at_ 1 1]) 100 100
  = {| dim_width := 100; dim_height := 100 |}.
Proof. intros H. rewrite calculateOptimalDimensions_cases, H. reflexivity. Qed.

End Projection.

(** ** The simplifier *)

Module Simplifier.
Import TrackUploader TrackToSVGConverter Notions.

(** The scan returns either the [maxDistance] and [maxIndex] it was started
    with, or the index of one of the points it visited. *)
Lemma farthest_index start end_ l : forall i d k d' k',
  farthest start end_ l i d k = (d', k') ->
  (d' = d /\ k' = k) \/ (i <= k' < i + length l).
Proof.
  induction l as [|p l IH]; simpl; intros i d k d' k' H.
  - left. now inversion H.
  - destruct (JS.gt (pointToLineDistance p start end_) d).
    + apply IH in H as [[_ ->]|H]; right; lia.
    + apply IH in H as [H|H]; [now left | right; lia].
Qed.

Lemma interior_length (pts : list SvgPoint) : length (interior pts) = length pts - 2.
Proof. unfold interior. rewrite length_take, length_drop. lia. Qed.

(** On a run of at least three points, the split index is [0] (no interior
    point is farther than [0] from the chord, and [maxDistance] is still the
    initial [0]) or the index of an interior point. *)
Lemma split_index start end_ (pts : list SvgPoint) d k :
  farthest start end_ (interior pts) 1 0%float 0 = (d, k) ->
  (d = 0%float /\ k = 0) \/ (1 <= k /\ k + 2 <= length pts).
Proof.
  intros H. apply farthest_index in H as [H|H]; [now left | right].
  rewrite interior_length in H. lia.
Qed.

Lemma gt_tolerance_nonneg d tolerance :
  (0 <=? tolerance)%float = true -> JS.gt d tolerance = true -> d <> 0%float.
Proof.
  intros Htol Hgt ->. unfold JS.gt in Hgt.
  exact (FloatOrder.le_lt_absurd _ _ Htol Hgt).
Qed.

(** Joining the two halves: the left half ends with the split point and the
    right half starts with it. *)
Lemma join_halves {A} (leftPart rightPart right' : list A) (pk : A) :
  last leftPart = Some pk -> rightPart = pk :: right' ->
  removelast leftPart ++ rightPart = leftPart ++ right'.
Proof.
  intros Hl ->. destruct leftPart as [|a l] using rev_ind; [discriminate|].
  rewrite last_snoc in Hl. inversion Hl; subst.
  rewrite removelast_last, <- app_assoc. reflexivity.
Qed.

Lemma length_removelast {A} (l : list A) : length (removelast l) = length l - 1.
Proof.
  destruct l as [|a l] using rev_ind; [reflexivity|].
  rewrite removelast_last, length_app. simpl. lia.
Qed.

Lemma simplified_refl pts : simplified pts pts.
Proof. split; reflexivity. Qed.

Lemma simplified_ends start rest :
  rest <> [] -> simplified [start; List.last rest start] (start :: rest).
Proof.
  intros Hne. destruct rest as [|a l] using rev_ind; [congruence|].
  rewrite List.last_last. split.
  - apply sublist_skip, sublist_inserts_l. reflexivity.
  - reflexivity.
  - change (start :: l ++ [a]) with ((start :: l) ++ [a]).
    now rewrite last_snoc.
Qed.

(** The recursive case: the results of the two halves, joined. *)
Lemma simplified_join (pts leftPart rightPart : list SvgPoint) k :
  1 <= k -> k + 2 <= length pts ->
  simplified leftPart (take (k + 1) pts) ->
  simplified rightPart (drop k pts) ->
  simplified (removelast leftPart ++ rightPart) pts.
Proof.
  intros Hk1 Hk2 [Ls Lh Ll] [Rs Rh Rl].
  destruct (lookup_lt_is_Some_2 pts k) as [pk Hpk]; [lia|].
  assert (Htk : take (k + 1) pts = take k pts ++ [pk]).
  { replace (k + 1) with (S k) by lia. now apply take_S_r. }
  assert (Hdk : drop k pts = pk :: drop (S k) pts).
  { now apply drop_S. }
  rewrite Htk, last_snoc in Ll. rewrite Hdk in Rh, Rs, Rl.
  destruct rightPart as [|r right']; [discriminate|].
  simpl in Rh. inversion Rh; subst r.
  rewrite (join_halves leftPart (pk :: right') right' pk Ll eq_refl).
  assert (Hl : leftPart <> []) by (intros ->; discriminate).
  split.
  - rewrite <- (take_drop (S k) pts).
    apply sublist_app.
    + replace (S k) with (k + 1) by lia. exact Ls.
    + apply (sublist_app_inv_l [pk]). exact Rs.
  - destruct leftPart; [congruence|]. simpl in *. rewrite Lh.
    replace (k + 1) with (S k) by lia.
    destruct pts; [simpl in Hk2; lia | reflexivity].
  - rewrite last_app. rewrite !last_cons in Rl.
    rewrite <- (take_drop (S k) pts), last_app.
    assert (E : last (drop (S k) pts) <> None).
    { rewrite last_None. intros E. apply (f_equal length) in E.
      rewrite length_drop in E. simpl in E. lia. }
    destruct (last right'), (last (drop (S k) pts)); congruence.
Qed.

(** With a tolerance that is not negative, a fuel above the length of the
    run is enough, and what [simplifyPath] returns is [simplified]. *)
Lemma simplifyPath_returns tolerance :
  (0 <=? tolerance)%float = true ->
  forall fuel pts, length pts < fuel ->
  exists out, simplifyPath fuel pts tolerance = Some out /\ simplified out pts.
Proof.
  intros Htol. induction fuel as [|fuel IH]; intros pts Hlen; [lia|].
  destruct pts as [|start [|p1 [|p2 rest]]];
    try (eexists; split; [reflexivity | apply simplified_refl]).
  cbn [simplifyPath].
  set (pts := start :: p1 :: p2 :: rest) in *.
  set (end_ := List.last (p1 :: p2 :: rest) start).
  destruct (farthest start end_ (interior pts) 1 0%float 0) as [d k] eqn:Hf.
  destruct (JS.gt d tolerance) eqn:Hgt.
  - apply split_index in Hf as [[-> _]|[Hk1 Hk2]].
    { exfalso. now apply (gt_tolerance_nonneg _ _ Htol Hgt). }
    destruct (IH (take (k + 1) pts)) as (leftPart & -> & HL).
    { rewrite length_take. lia. }
    destruct (IH (drop k pts)) as (rightPart & -> & HR).
    { rewrite length_drop. lia. }
    eexists; split; [reflexivity|]. now apply (simplified_join pts _ _ k).
  - eexists; split; [reflexivity|]. now apply simplified_ends.
Qed.

(** Whatever the tolerance, a returned simplification of a run of at least
    two points has at least two points. *)
Lemma simplifyPath_two tolerance : forall fuel pts out,
  simplifyPath fuel pts tolerance = Some out -> 2 <= length pts -> 2 <= length out.
Proof.
  induction fuel as [|fuel IH]; intros pts out H Hlen; [discriminate|].
  destruct pts as [|start [|p1 [|p2 rest]]]; try (inversion H; subst; exact Hlen).
  cbn [simplifyPath] in H.
  set (pts := start :: p1 :: p2 :: rest) in *.
  destruct (farthest start _ (interior pts) 1 0%float 0) as [d k] eqn:Hf.
  destruct (JS.gt d tolerance); [|inversion H; simpl; lia].
  destruct (simplifyPath fuel (take (k + 1) pts) tolerance) as [leftPart|]; [|discriminate].
  destruct (simplifyPath fuel (drop k pts) tolerance) as [rightPart|] eqn:HR; [|discriminate].
  inversion H; subst out. rewrite length_app.
  apply IH in HR; [lia|].
  rewrite length_drop.
  apply split_index in Hf as [[_ ->]|[_ Hk]]; [exact Hlen | lia].
Qed.

(** A larger tolerance follows the recursion of a smaller one, and keeps
    no more points. *)
Lemma simplifyPath_coarser t1 t2 :
  (t1 <=? t2)%float = true ->
  forall fuel pts out1, simplifyPath fuel pts t1 = Some out1 ->
  exists out2, simplifyPath fuel pts t2 = Some out2 /\ length out2 <= length out1.
Proof.
  intros Hle. induction fuel as [|fuel IH]; intros pts out1 H; [discriminate|].
  destruct pts as [|start [|p1 [|p2 rest]]];
    try (inversion H; subst; eexists; split; [reflexivity | lia]).
  pose proof (simplifyPath_two t1 _ _ _ H) as Htwo.
  cbn [simplifyPath] in H |- *.
  set (pts := start :: p1 :: p2 :: rest) in *.
  destruct (farthest start _ (interior pts) 1 0%float 0) as [d k] eqn:Hf.
  destruct (JS.gt d t2) eqn:Hgt2.
  - assert (Hgt1 : JS.gt d t1 = true) by (exact (FloatOrder.le_lt_trans _ _ _ Hle Hgt2)).
    rewrite Hgt1 in H.
    destruct (simplifyPath fuel (take (k + 1) pts) t1) as [left1|] eqn:HL; [|discriminate].
    destruct (simplifyPath fuel (drop k pts) t1) as [right1|] eqn:HR; [|discriminate].
    apply IH in HL as (left2 & -> & HlL). apply IH in HR as (right2 & -> & HlR).
    inversion H; subst out1. eexists; split; [reflexivity|].
    rewrite !length_app, !length_removelast. lia.
  - eexists; split; [reflexivity|]. simpl in *. lia.
Qed.

(** One step of the recursion on a run of at least three points. *)
Lemma simplifyPath_step fuel start p1 p2 rest tolerance d k :
  let pts := start :: p1 :: p2 :: rest in
  farthest start (List.last (p1 :: p2 :: rest) start) (interior pts) 1 0%float 0 = (d, k) ->
  simplifyPath (S fuel) pts tolerance =
  if JS.gt d tolerance then
    match simplifyPath fuel (take (k + 1) pts) tolerance with
    | None => None
    | Some leftPart =>
        match simplifyPath fuel (drop k pts) tolerance with
        | None => None
        | Some rightPart => Some (removelast leftPart ++ rightPart)
        end
    end
  else Some [start; List.last (p1 :: p2 :: rest) start].
Proof. intros pts Hf. cbn [simplifyPath]. unfold pts at 1. cbv iota beta. now rewrite Hf. Qed.

(** The fuel [S (length pts)] that [convert] gives decides whether the
    recursion returns: if it is not enough, no fuel is. *)
Lemma simplifyPath_never_returns tolerance : forall n pts,
  length pts <= n -> simplifyPath (S n) pts tolerance = None ->
  forall fuel, simplifyPath fuel pts tolerance = None.
Proof.
  induction n as [|n IH]; intros pts Hlen Hnone.
  { destruct pts as [|start [|p1 [|p2 rest]]]; simpl in Hlen; try lia; discriminate. }
  destruct pts as [|start [|p1 [|p2 rest]]]; try discriminate.
  destruct (farthest start (List.last (p1 :: p2 :: rest) start)
              (interior (start :: p1 :: p2 :: rest)) 1 0%float 0) as [d k] eqn:Hf.
  pose proof (fun fuel => simplifyPath_step fuel start p1 p2 rest tolerance d k Hf) as Hstep.
  cbv zeta in Hstep. apply split_index in Hf as Hk.
  set (pts := start :: p1 :: p2 :: rest) in *.
  rewrite Hstep in Hnone.
  destruct (JS.gt d tolerance) eqn:Hgt; [|discriminate].
  induction fuel as [|fuel IHf]; [reflexivity|].
  rewrite Hstep, ?Hgt. cbv iota.
  destruct Hk as [[_ ->]|[Hk1 Hk2]].
  - change (drop 0 pts) with pts. rewrite IHf.
    now destruct (simplifyPath fuel (take (0 + 1) pts) tolerance).
  - destruct (simplifyPath (S n) (take (k + 1) pts) tolerance) as [leftPart|] eqn:HL.
    + destruct (simplifyPath (S n) (drop k pts) tolerance) eqn:HR; [discriminate|].
      rewrite (IH (drop k pts));
        [now destruct (simplifyPath fuel (take (k + 1) pts) tolerance) | | exact HR].
      rewrite length_drop. lia.
    + rewrite (IH (take (k + 1) pts)); [reflexivity | | exact HL].
      rewrite length_take. lia.
Qed.

(** C8: for a tolerance that is not negative, [simplifyPath] returns (any
    fuel above the length of the run is enough); its result is a subsequence
    of the run, no longer than the run, with the same first and the same last
    element; a run of at most two points is returned as it is. *)
Theorem simplifyPath_subsequence (pts : list SvgPoint) (tolerance : float) (fuel : nat) :
  (0 <=? tolerance)%float = true -> length pts < fuel ->
  exists out,
    simplifyPath fuel pts tolerance = Some out
    /\ out `sublist_of` pts
    /\ length out <= length pts
    /\ head out = head pts
    /\ last out = last pts
    /\ (length pts <= 2 -> out = pts).
Proof.
  intros Htol Hfuel.
  destruct (simplifyPath_returns tolerance Htol fuel pts Hfuel) as (out & Hout & [Hs Hh Hl]).
  exists out. repeat split; trivial.
  - now apply sublist_length.
  - intros Hshort. destruct fuel as [|fuel]; [lia|].
    destruct pts as [|p0 [|p1 [|p2 rest]]]; simpl in Hshort, Hout; try lia; congruence.
Qed.

Lemma simplifyPath_subsequence_witness :
  exists out,
    simplifyPath 6 zigzag 4.5 = Some out
    /\ out `sublist_of` zigzag
    /\ length out <= length zigzag
    /\ head out = head zigzag
    /\ last out = last zigzag
    /\ (length zigzag <= 2 -> out = zigzag).
Proof.
  apply (simplifyPath_subsequence zigzag 4.5 6); [reflexivity | simpl; lia].
Defined.

(** C9: for tolerances [t1 <= t2], whenever [simplifyPath] returns for [t1]
    it returns for [t2] with the same fuel, with at most as many points; and
    it does return for both when [t1] is not negative. *)
Theorem simplifyPath_monotone (pts : list SvgPoint) (t1 t2 : float) :
  (t1 <=? t2)%float = true ->
  (forall fuel out1, simplifyPath fuel pts t1 = Some out1 ->
     exists out2, simplifyPath fuel pts t2 = Some out2 /\ length out2 <= length out1)
  /\ ((0 <=? t1)%float = true ->
      exists out1 out2,
        simplifyPath (S (length pts)) pts t1 = Some out1
        /\ simplifyPath (S (length pts)) pts t2 = Some out2
        /\ length out2 <= length out1).
Proof.
  intros Hle. split.
  - intros fuel out1. now apply simplifyPath_coarser.
  - intros H0.
    destruct (simplifyPath_returns t1 H0 (S (length pts)) pts) as (out1 & H1 & _); [lia|].
    destruct (simplifyPath_coarser t1 t2 Hle _ _ _ H1) as (out2 & H2 & Hlen).
    now exists out1, out2.
Qed.

Lemma simplifyPath_monotone_witness :
  (exists out2, simplifyPath 6 zigzag 4.5 = Some out2 /\ length out2 <= length zigzag)
  /\ (exists out1 out2,
        simplifyPath (S (length zigzag)) zigzag 1 = Some out1
        /\ simplifyPath (S (length zigzag)) zigzag 4.5 = Some out2
        /\ length out2 <= length out1).
Proof.
  destruct (simplifyPath_monotone zigzag 1 4.5 eq_refl) as [Hfollow Hboth].
  split.
  - exact (Hfollow 6 zigzag eq_refl).
  - exact (Hboth eq_refl).
Defined.

(** The zigzag at three tolerances: all five points, four, two. *)
Example simplifyPath_zigzag :
  simplifyPath 6 zigzag 1 = Some zigzag
  /\ simplifyPath 6 zigzag 4.5 = Some [planar 0 0; planar 1 5; planar 2 0; planar 4 0]
  /\ simplifyPath 6 zigzag 6 = Some [planar 0 0; planar 4 0].
Proof. repeat split; reflexivity. Qed.

(** With a negative tolerance the recursion may never return: when no interior
    point is farther than [0] from the chord, [maxIndex] stays [0] and the
    right half is the whole run again. *)
Lemma simplifyPath_negative_tolerance_loops :
  forall fuel, simplifyPath fuel [planar 0 0; planar 0 0; planar 10 0] (-1) = None.
Proof.
  set (run := [planar 0 0; planar 0 0; planar 10 0]).
  assert (Hstep : forall fuel,
    simplifyPath (S fuel) run (-1) =
    match simplifyPath fuel (take 1 run) (-1) with
    | None => None
    | Some leftPart =>
        match simplifyPath fuel run (-1) with
        | None => None
        | Some rightPart => Some (removelast leftPart ++ rightPart)
        end
    end) by reflexivity.
  induction fuel as [|fuel IH]; [reflexivity|].
  rewrite Hstep, IH. now destruct (simplifyPath fuel (take 1 run) (-1)).
Qed.

End Simplifier.

(** ** The distance helper *)

Module Distance.
Import TrackUploader TrackToSVGConverter Notions FloatOrder FloatArith.

Lemma toward_number point qx qy :
  finite (x point) -> finite (y point) -> finite qx -> finite qy ->
  number (toward point qx qy).
Proof.
  intros Hx Hy Hqx Hqy. apply nonneg_number, sqrt_nonneg, add_nonneg;
    apply mul_self, sub_finite; assumption.
Qed.

Lemma not_lt_not_gt_between param :
  number param -> JS.lt param 0 = false -> JS.gt param 1 = false ->
  (0 <=? param)%float = true /\ (param <=? 1)%float = true.
Proof.
  unfold JS.lt, JS.gt. intros Hn H0 H1. split; apply nlt_le; trivial; discriminate.
Qed.



(** On the segment from (0,0) to (10,0): the point (5,3), whose
    perpendicular foot is (5,0), gets [param = -0.5] and is measured to the
    start; (-5,3) gets [param = 0.5] and is measured to (5,0). *)
Example pointToLineDistance_samples :
  pointToLineDistance (planar 5 3) (planar 0 0) (planar 10 0) = toward (planar 5 3) 0 0
  /\ pointToLineDistance (planar (-5) 3) (planar 0 0) (planar 10 0)
     = toward (planar (-5) 3) 5 0
  /\ pointToLineDistance_traced (planar 4 3) (planar 0 0) (planar 0 0) = (5%float, []).
Proof. repeat split; reflexivity. Qed.

End Distance.

(** ** The conversion *)

Module Conversion.
Import TrackUploader TrackToSVGConverter Notions FloatOrder FloatArith.

Lemma project_length transform pts : length (project transform pts) = length pts.
Proof. unfold project. apply length_map. Qed.

(** [convert] returns whenever the simplifier is not run or is run with a
    tolerance that is not negative; the canvas of the result is the one
    [calculateOptimalDimensions] gives for the budget in [options]. *)
Lemma convert_result (B : Builtins) (trackData : TrackData) (options : option Options) :
  option_or options simplify true = false
  \/ length (points trackData) <= 100
  \/ (0 <=? option_or options simplifyTolerance 0.001)%float = true ->
  exists r,
    convert B trackData options = Some r
    /\ name r = TrackUploader.name trackData
    /\ originalBounds r = bounds trackData
    /\ CoordinateTransform.Build_Dimensions (width r) (height r)
       = CoordinateTransform.calculateOptimalDimensions B (bounds trackData)
           (option_or options maxWidth 800%float) (option_or options maxHeight 600%float).
Proof.
  intros H. unfold convert.
  set (d := CoordinateTransform.calculateOptimalDimensions _ _ _ _).
  set (pts := project _ _).
  assert (Hs : exists out,
    (if option_or options simplify true && (100 <? length pts)%nat
     then simplifyPath (S (length pts)) pts (option_or options simplifyTolerance 0.001%float)
     else Some pts) = Some out).
  { destruct (option_or options simplify true) eqn:Es; [|now exists pts].
    destruct (100 <? length pts)%nat eqn:El; [|now exists pts]. cbn [andb].
    apply Nat.ltb_lt in El.
    assert (Hlen : length pts = length (points trackData)) by apply project_length.
    destruct H as [H|[H|H]]; [discriminate | lia |].
    destruct (Simplifier.simplifyPath_returns _ H (S (length pts)) pts) as (out & -> & _);
      [lia|].
    now exists out. }
  destruct Hs as (out & ->). eexists. split; [reflexivity|].
  cbn [name originalBounds width height]. repeat split. now destruct d.
Qed.

Ltac convert_inv H :=
  unfold convert in H;
  match type of H with match ?s with _ => _ end = _ => destruct s end;
  inversion H; subst.




(** [convert] has no check for an empty track either: called on one, it
    returns an empty path. *)
Example convert_empty_track (B : Builtins) (b : Bounds) (m : Metadata) :
  exists r,
    convert B {| TrackUploader.name := "empty"; points := []; bounds := b; metadata := m |} None
    = Some r /\ svgPath r = EmptyString.
Proof. eexists. split; reflexivity. Qed.

Lemma project_single_place (transform : CoordinateTransform.t) (p : GPXPoint) (n : nat) :
  finite (lat p) -> finite (lng p) ->
  CoordinateTransform.bounds transform
  = {| north := lat p; south := lat p; east := lng p; west := lng p |} ->
  project transform (repeat p n) = repeat {| x := nan; y := nan; original := p |} n.
Proof.
  intros Hlat Hlng Hb. induction n as [|n IH]; [reflexivity|].
  cbn [repeat project map]. fold (project transform (repeat p n)). rewrite IH.
  rewrite Projection.gpsToSVG_zero_lat_span, Projection.gpsToSVG_zero_lng_span;
    rewrite ?Hb; trivial.
Qed.

(** A negative tolerance is not refused, and [convert] may then never return:
    on 101 samples at the same place every projected point is (NaN, NaN), no
    distance is above [0], and the recursion of [simplifyPath] goes on with
    the whole run. *)
Example convert_negative_tolerance_loops (B : Builtins) :
  convert B (stationary 101)
          (Some {| maxWidth := None; maxHeight := None; padding := None;
                   simplify := None; simplifyTolerance := Some (-1)%float |})
  = None.
Proof.
  unfold convert. cbn [points stationary].
  rewrite (project_single_place _ (at_ 10 20) 101); try exact I; [|reflexivity].
  match goal with |- match ?s with _ => _ end = _ =>
    assert (E : s = None) by (vm_compute; reflexivity); now rewrite E
  end.
Qed.

End Conversion.

(** ** Degenerate bounds *)

Module Degenerate.
Import TrackUploader CoordinateTransform TrackToSVGConverter Notions FloatOrder FloatArith.

Lemma finite_above_neg_infinity v : finite v -> (neg_infinity <? v)%float = true.
Proof.
  unfold JS.finite. rewrite FloatAxioms.ltb_spec.
  change (Prim2SF neg_infinity) with (S754_infinity true).
  now destruct (Prim2SF v).
Qed.

Lemma finite_below_infinity v : finite v -> (v <? infinity)%float = true.
Proof.
  unfold JS.finite. rewrite FloatAxioms.ltb_spec.
  change (Prim2SF infinity) with (S754_infinity false).
  now destruct (Prim2SF v) as [?|?| |[] ? ?].
Qed.

(** The bounds of a one-point track are that point. *)
Lemma computeBounds_single (p : GPXPoint) :
  finite (lat p) -> finite (lng p) ->
  computeBounds [p] = {| north := lat p; south := lat p; east := lng p; west := lng p |}.
Proof.
  intros Hlat Hlng. unfold computeBounds, JS.Math_max, JS.Math_min. cbn [map fold_left].
  unfold JS.max_step, JS.min_step.
  rewrite (proj2 (is_nan_number (lat p)) (finite_number _ Hlat)).
  rewrite (proj2 (is_nan_number (lng p)) (finite_number _ Hlng)).
  now rewrite !finite_above_neg_infinity, !finite_below_infinity.
Qed.

(** [convert] on a one-point track: the path is built from NaN. *)
Lemma convert_single_point (B : Builtins) (p : GPXPoint) (trackName : string)
  (m : Metadata) (options : option Options) :
  finite (lat p) -> finite (lng p) ->
  exists r,
    convert B {| TrackUploader.name := trackName; points := [p];
                 TrackUploader.bounds := computeBounds [p]; metadata := m |} options
    = Some r
    /\ TrackToSVGConverter.height r = nan
    /\ svgPath r = ("M " ++ toFixed2 B nan ++ " " ++ toFixed2 B nan)%string.
Proof.
  intros Hlat Hlng. unfold convert. cbn [points TrackUploader.bounds].
  rewrite (computeBounds_single p Hlat Hlng).
  rewrite (Conversion.project_single_place _ p 1 Hlat Hlng) by reflexivity.
  rewrite Projection.canvas_single_point by (assumption || reflexivity).
  cbn [repeat length Nat.ltb Nat.leb]. rewrite andb_false_r.
  eexists. split; [reflexivity|]. split; reflexivity.
Qed.

(** C2, as the code has it: nothing raises on degenerate bounds, and nothing
    is substituted for a span of zero either.  A point of a track with zero
    latitude span gets [y = NaN], a point of a track with zero longitude span
    gets [x = NaN], the canvas of single-point bounds has the rounded
    [maxWidth] as its width and NaN as its height, whatever the library, and
    [convert] returns for a one-point track, with a path built from NaN. *)
Theorem degenerate_bounds_give_NaN (B : Builtins) (this : CoordinateTransform.t)
  (la lo maxWidth maxHeight : float) :
  let b := CoordinateTransform.bounds this in
  (finite (south b) -> north b = south b -> la = south b ->
   CoordinateTransform.y (gpsToSVG this la lo) = nan)
  /\ (finite (west b) -> east b = west b -> lo = west b ->
      CoordinateTransform.x (gpsToSVG this la lo) = nan)
  /\ (finite (south b) -> finite (west b) -> north b = south b -> east b = west b ->
      calculateOptimalDimensions B b maxWidth maxHeight
      = {| dim_width := JS.Math_round maxWidth; dim_height := nan |})
  /\ (forall p trackName m options, finite (lat p) -> finite (lng p) ->
      exists r,
        convert B {| TrackUploader.name := trackName; points := [p];
                     TrackUploader.bounds := computeBounds [p]; metadata := m |} options
        = Some r
        /\ TrackToSVGConverter.height r = nan
        /\ svgPath r = ("M " ++ toFixed2 B nan ++ " " ++ toFixed2 B nan)%string).
Proof.
  intros b. split; [|split; [|split]].
  - apply Projection.gpsToSVG_zero_lat_span.
  - apply Projection.gpsToSVG_zero_lng_span.
  - intros. now apply Projection.canvas_single_point.
  - intros. now apply convert_single_point.
Qed.

Lemma degenerate_bounds_give_NaN_witness :
  CoordinateTransform.y
    (gpsToSVG {| CoordinateTransform.bounds := computeBounds [at_ 10 20];
                 CoordinateTransform.width := 800; CoordinateTransform.height := 600;
                 CoordinateTransform.padding := 0.1 |} 10 20) = nan
  /\ CoordinateTransform.x
       (gpsToSVG {| CoordinateTransform.bounds := computeBounds [at_ 10 20];
                    CoordinateTransform.width := 800; CoordinateTransform.height := 600;
                    CoordinateTransform.padding := 0.1 |} 10 20) = nan
  /\ calculateOptimalDimensions smallAngle (computeBounds [at_ 10 20]) 800 600
     = {| dim_width := JS.Math_round 800; dim_height := nan |}
  /\ (exists r, convert smallAngle (stationary 1) None = Some r
                /\ TrackToSVGConverter.height r = nan
                /\ svgPath r = "M #.## #.##"%string).
Proof.
  destruct (degenerate_bounds_give_NaN smallAngle
              {| CoordinateTransform.bounds := computeBounds [at_ 10 20];
                 CoordinateTransform.width := 800; CoordinateTransform.height := 600;
                 CoordinateTransform.padding := 0.1 |} 10 20 800 600)
    as (H1 & H2 & H3 & H4).
  split; [|split; [|split]].
  - apply H1; [exact I | reflexivity | reflexivity].
  - apply H2; [exact I | reflexivity | reflexivity].
  - apply H3; [exact I | exact I | reflexivity | reflexivity].
  - exact (H4 (at_ 10 20) "stationary"%string
              {| distance := 0; duration := None; elevationGain := None |} None I I).
Defined.

(** C2 fails as stated: for the single-point track at (10, 20) the canvas
    height is NaN under every library (a 1:1 fallback would give 600 x 600),
    and the point is mapped to (NaN, NaN), not to the centre (400, 300); for a
    west-east track at latitude 10 every [y] is NaN. *)
Lemma single_point_is_not_centred :
  computeBounds [at_ 10 20] = {| north := 10; south := 10; east := 20; west := 20 |}
  /\ (~ exists B : Builtins,
        dim_height (calculateOptimalDimensions B (computeBounds [at_ 10 20]) 800 600) <> nan)
  /\ gpsToSVG {| CoordinateTransform.bounds := computeBounds [at_ 10 20];
                 CoordinateTransform.width := 800; CoordinateTransform.height := 600;
                 CoordinateTransform.padding := 0.1 |} 10 20
     = {| CoordinateTransform.x := nan; CoordinateTransform.y := nan |}
  /\ gpsToSVG {| CoordinateTransform.bounds := computeBounds [at_ 10 20; at_ 10 30];
                 CoordinateTransform.width := 800; CoordinateTransform.height := 600;
                 CoordinateTransform.padding := 0.1 |} 10 30
     = {| CoordinateTransform.x := 733.33333333333326; CoordinateTransform.y := nan |}.
Proof.
  repeat split; try reflexivity.
  intros [B H]. apply H.
  now rewrite (Projection.canvas_single_point B (computeBounds [at_ 10 20]) 800 600).
Qed.

End Degenerate.

(** * Further properties of the code *)

(** ** More on the order of numbers *)

Module FloatFacts.
Import Notions FloatOrder FloatArith.

Lemma SFlt_numbers x y : SFltb x y = true -> x <> S754_nan /\ y <> S754_nan.
Proof. unfold SFltb, SFcompare. destruct x, y; simpl; intros H; split; congruence. Qed.

Lemma SFlt_le_trans x y z : SFltb x y = true -> SFleb y z = true -> SFltb x z = true.
Proof. intros; sf_order. Qed.

Lemma lt_numbers x y : (x <? y)%float = true -> number x /\ number y.
Proof. rewrite FloatAxioms.ltb_spec. apply SFlt_numbers. Qed.

Lemma lt_le_trans x y z :
  (x <? y)%float = true -> (y <=? z)%float = true -> (x <? z)%float = true.
Proof. rewrite !FloatAxioms.ltb_spec, FloatAxioms.leb_spec. apply SFlt_le_trans. Qed.

Lemma le_numbers x y : (x <=? y)%float = true -> number x /\ number y.
Proof.
  rewrite FloatAxioms.leb_spec. unfold JS.number, SFleb, SFcompare.
  destruct (Prim2SF x), (Prim2SF y); simpl; intros H; split; congruence.
Qed.

Lemma lt_nan_l x : (nan <? x)%float = false.
Proof.
  rewrite FloatAxioms.ltb_spec. change (Prim2SF nan) with S754_nan. reflexivity.
Qed.

Lemma lt_infinity_l x : (infinity <? x)%float = false.
Proof.
  rewrite FloatAxioms.ltb_spec. change (Prim2SF infinity) with (S754_infinity false).
  now destruct (Prim2SF x) as [?|[]| |? ? ?].
Qed.

End FloatFacts.

(** ** Operations that are exact

    Read off the rounding of [SpecFloat] for numbers in canonical form, which
    the numbers of the processor are ([Prim2SF_valid]). *)

Module FloatExact.
Import Notions FloatOrder FloatArith FloatFacts.

Lemma iter_pos_comm {A} (f : A -> A) p : forall x,
  SpecFloat.iter_pos f p (f x) = f (SpecFloat.iter_pos f p x).
Proof.
  induction p as [p IH|p IH|]; intros x; cbn [SpecFloat.iter_pos];
    [now rewrite !IH | now rewrite !IH | reflexivity].
Qed.

Lemma iter_pos_iter {A} (f : A -> A) p : forall x,
  SpecFloat.iter_pos f p x = Pos.iter f x p.
Proof.
  induction p as [p IH|p IH|]; intros x; cbn [SpecFloat.iter_pos Pos.iter];
    [|now rewrite !IH|reflexivity].
  now rewrite !iter_pos_comm, !IH.
Qed.

Lemma digits2_pos_shift m p :
  Z.pos (digits2_pos (Pos.iter xO m p)) = (Z.pos (digits2_pos m) + Z.pos p)%Z.
Proof.
  induction p as [|p IH] using Pos.peano_ind.
  - simpl. lia.
  - rewrite Pos.iter_succ. cbn [digits2_pos]. lia.
Qed.

Lemma shr_shift m p :
  Pos.iter shr_1 {| shr_m := Z.pos (Pos.iter xO m p); shr_r := false; shr_s := false |} p
  = {| shr_m := Z.pos m; shr_r := false; shr_s := false |}.
Proof.
  induction p as [|p IH] using Pos.peano_ind.
  - reflexivity.
  - rewrite Pos.iter_succ_r, Pos.iter_succ. exact IH.
Qed.

(** Rounding a canonical mantissa that was shifted to the left gives it
    back. *)
Lemma binary_round_aux_shift s m e p :
  bounded prec emax m e = true ->
  binary_round_aux prec emax s (Z.pos (Pos.iter xO m p)) (e - Z.pos p) loc_Exact
  = S754_finite s m e.
Proof.
  unfold bounded, canonical_mantissa. intros H.
  apply andb_true_iff in H as [H1 H2]. apply Z.eqb_eq in H1.
  unfold binary_round_aux, shr_fexp. unfold Zdigits2 at 1.
  rewrite digits2_pos_shift.
  replace (Z.pos (digits2_pos m) + Z.pos p + (e - Z.pos p))%Z
    with (Z.pos (digits2_pos m) + e)%Z by lia.
  rewrite H1. replace (e - (e - Z.pos p))%Z with (Z.pos p) by lia.
  cbn [shr shr_record_of_loc]. rewrite iter_pos_iter, shr_shift.
  cbn [shr_m loc_of_shr_record shr_r shr_s round_nearest_even Zdigits2].
  replace (e - Z.pos p + Z.pos p)%Z with e by lia.
  rewrite H1, Z.sub_diag. cbn [shr shr_m]. now rewrite H2.
Qed.

Lemma SFmul_1_l x : valid_binary x = true -> SF64mul (Prim2SF 1) x = x.
Proof.
  change (Prim2SF 1) with (S754_finite false 4503599627370496 (-52)).
  destruct x as [s|s| |s m e]; trivial. intros H.
  unfold SF64mul. cbn [SFmul xorb SpecFloat.valid_binary] in H |- *.
  change (Z.pos (4503599627370496 * m)) with (Z.pos (Pos.iter xO m 52)).
  replace (-52 + e)%Z with (e - 52)%Z by lia.
  now apply binary_round_aux_shift.
Qed.

Lemma mul_1_l x : (1 * x)%float = x.
Proof.
  apply Prim2SF_inj. rewrite FloatAxioms.mul_spec. apply SFmul_1_l, Prim2SF_valid.
Qed.

Lemma add_0_l x : (0 <? x)%float = true -> (0 + x)%float = x.
Proof.
  rewrite FloatAxioms.ltb_spec. intros H. apply Prim2SF_inj.
  rewrite FloatAxioms.add_spec. change (Prim2SF 0) with (S754_zero false) in *.
  destruct (Prim2SF x) as [s|s| |s m e]; try discriminate; reflexivity.
Qed.

Lemma digits2_size m : digits2_pos m = Pos.size m.
Proof. induction m as [m IH|m IH|]; simpl; congruence. Qed.

Lemma iter_xO m d : Z.pos (Pos.iter xO m d) = (Z.pos m * 2 ^ Z.pos d)%Z.
Proof.
  induction d as [|d IH] using Pos.peano_ind.
  - simpl. lia.
  - rewrite Pos.iter_succ, Pos2Z.inj_succ, Z.pow_succ_r by lia.
    rewrite Pos2Z.inj_xO, IH. lia.
Qed.

(** In canonical form the mantissa has at most [prec] digits, and exactly
    [prec] above the smallest exponent. *)
Lemma canonical_digits m e :
  bounded prec emax m e = true ->
  (Z.pos m < 2 ^ 53)%Z /\ (emin <= e)%Z /\ (emin < e -> 2 ^ 52 <= Z.pos m)%Z.
Proof.
  unfold bounded, canonical_mantissa, fexp. intros H.
  apply andb_true_iff in H as [H _]. apply Z.eqb_eq in H.
  rewrite digits2_size in H.
  pose proof (Pos.size_gt m) as Hgt. pose proof (Pos.size_le m) as Hle.
  apply Pos2Z.pos_lt_pos in Hgt. apply Pos2Z.pos_le_pos in Hle.
  rewrite Pos2Z.inj_pow in Hgt, Hle. rewrite Pos2Z.inj_xO in Hle.
  change prec with 53%Z in *. change emin with (-1074)%Z in *.
  split; [|split].
  - apply Z.lt_le_trans with (1 := Hgt). apply Z.pow_le_mono_r; lia.
  - lia.
  - intros He. assert (Hs : Z.pos (Pos.size m) = 53%Z) by lia.
    rewrite Hs in Hle. change (2 ^ 53)%Z with (2 * 2 ^ 52)%Z in Hle. lia.
Qed.

(** Of two positive canonical numbers the one with the smaller exponent is
    the smaller one. *)
Lemma canonical_exponent_order m1 e1 m2 e2 :
  bounded prec emax m1 e1 = true -> bounded prec emax m2 e2 = true ->
  (e1 < e2)%Z -> (Z.pos m1 < Z.pos m2 * 2 ^ (e2 - e1))%Z.
Proof.
  intros H1 H2 He.
  destruct (canonical_digits _ _ H1) as (Hm1 & Hmin1 & _).
  destruct (canonical_digits _ _ H2) as (_ & _ & Hm2).
  specialize (Hm2 ltac:(lia)).
  assert (2 ^ 1 <= 2 ^ (e2 - e1))%Z by (apply Z.pow_le_mono_r; lia).
  change (2 ^ 53)%Z with (2 ^ 52 * 2 ^ 1)%Z in Hm1. nia.
Qed.

(** The mantissa aligned to a smaller exponent. *)
Lemma aligned m e e' :
  (e' <= e)%Z -> Z.pos (fst (shl_align m e e')) = (Z.pos m * 2 ^ (e - e'))%Z.
Proof.
  intros H. unfold shl_align.
  destruct (e' - e)%Z as [|d|d] eqn:E; try lia.
  - replace (e - e')%Z with 0%Z by lia. rewrite Z.pow_0_r. cbn [fst]. lia.
  - cbn [fst]. rewrite iter_xO. f_equal. f_equal. lia.
Qed.

(** The difference of a larger and a smaller number has its sign bit clear. *)
Lemma SFsub_gt_nonneg x y :
  valid_binary x = true -> valid_binary y = true ->
  SFltb y x = true -> SFnonneg (SF64sub x y).
Proof.
  unfold SFltb, SFcompare, SF64sub.
  destruct x as [sx|sx| |sx mx ex], y as [sy|sy| |sy my ey]; cbn [SFsub SpecFloat.valid_binary];
    intros Hx Hy H; try discriminate;
    try (destruct sx; try discriminate; destruct sy; try discriminate; exact I).
  set (ez := Z.min ex ey).
  assert (Hax := aligned mx ex ez ltac:(lia)).
  assert (Hay := aligned my ey ez ltac:(lia)).
  assert (HD : (0 < cond_Zopp sx (Z.pos (fst (shl_align mx ex ez)))
                    - cond_Zopp sy (Z.pos (fst (shl_align my ey ez))))%Z).
  { change (Pos.compare_cont Eq my mx) with (Pos.compare my mx) in H.
    destruct sx, sy; cbn [cond_Zopp]; try discriminate; rewrite ?Hax, ?Hay.
    - destruct (Z.compare_spec ey ex) as [E|E|E]; try discriminate.
      + subst. replace ez with ex by lia. rewrite Z.sub_diag, Z.pow_0_r.
        destruct (Pos.compare_spec my mx); try discriminate. lia.
      + pose proof (canonical_exponent_order _ _ _ _ Hx Hy E).
        replace ez with ex by lia. rewrite Z.sub_diag, Z.pow_0_r. lia.
    - assert (0 < 2 ^ (ex - ez))%Z by (apply Z.pow_pos_nonneg; lia).
      assert (0 < 2 ^ (ey - ez))%Z by (apply Z.pow_pos_nonneg; lia). nia.
    - destruct (Z.compare_spec ey ex) as [E|E|E]; try discriminate.
      + subst. replace ez with ex by lia. rewrite Z.sub_diag, Z.pow_0_r.
        destruct (Pos.compare_spec my mx); try discriminate. lia.
      + pose proof (canonical_exponent_order _ _ _ _ Hy Hx E).
        replace ez with ey by lia. rewrite Z.sub_diag, Z.pow_0_r. lia. }
  destruct (cond_Zopp sx (Z.pos (fst (shl_align mx ex ez)))
            - cond_Zopp sy (Z.pos (fst (shl_align my ey ez))))%Z as [|D|D]; try lia.
  cbn [binary_normalize]. apply SFsigned_nonneg, binary_round_signed.
Qed.

Lemma gt_sub_nonneg x y : JS.gt x y = true -> nonneg (x - y)%float.
Proof.
  unfold JS.gt, nonneg. rewrite FloatAxioms.ltb_spec, FloatAxioms.sub_spec.
  apply SFsub_gt_nonneg; apply Prim2SF_valid.
Qed.

End FloatExact.

(** ** More on the simplifier *)

Module SimplifierExtras.
Import TrackUploader TrackToSVGConverter Notions MoreNotions.
Import FloatOrder FloatArith FloatFacts Simplifier.

(** The scan returns a [maxDistance] that no visited point exceeds. *)
Lemma farthest_bound start end_ l : forall i d k d' k',
  number d -> farthest start end_ l i d k = (d', k') ->
  (d <=? d')%float = true
  /\ Forall (fun p => JS.gt (pointToLineDistance p start end_) d' = false) l.
Proof.
  induction l as [|p l IH]; simpl; intros i d k d' k' Hd H.
  - inversion H; subst. split; [now apply le_refl | constructor].
  - destruct (JS.gt (pointToLineDistance p start end_) d) eqn:Hgt.
    + unfold JS.gt in Hgt. destruct (lt_numbers _ _ Hgt) as [_ Hn].
      destruct (IH _ _ _ _ _ Hn H) as [Hle Hall]. split.
      * exact (le_trans _ _ _ (lt_le _ _ Hgt) Hle).
      * constructor; [|exact Hall]. unfold JS.gt.
        destruct (d' <? pointToLineDistance p start end_)%float eqn:E; [|reflexivity].
        exfalso. exact (le_lt_absurd _ _ Hle E).
    + destruct (IH _ _ _ _ _ Hd H) as [Hle Hall]. split; [exact Hle|].
      constructor; [|exact Hall]. unfold JS.gt in *.
      destruct (d' <? pointToLineDistance p start end_)%float eqn:E; [|reflexivity].
      rewrite (le_lt_trans _ _ _ Hle E) in Hgt. discriminate.
Qed.

(** A [maxDistance] that differs from the one the scan started with is the
    distance of a visited point. *)
Lemma farthest_found start end_ l : forall i d k d' k',
  farthest start end_ l i d k = (d', k') ->
  (d' = d /\ k' = k) \/ exists p, In p l /\ pointToLineDistance p start end_ = d'.
Proof.
  induction l as [|p l IH]; simpl; intros i d k d' k' H.
  - left. now inversion H.
  - destruct (JS.gt (pointToLineDistance p start end_) d).
    + apply IH in H as [[-> _]|(q & Hq & E)]; right; eauto.
    + apply IH in H as [H|(q & Hq & E)]; [now left | right; eauto].
Qed.

(** When no visited point is above the current [maxDistance], the scan
    changes nothing. *)
Lemma farthest_unchanged start end_ l : forall i d k,
  Forall (fun p => JS.gt (pointToLineDistance p start end_) d = false) l ->
  farthest start end_ l i d k = (d, k).
Proof.
  induction l as [|p l IH]; simpl; intros i d k H; [reflexivity|].
  inversion H; subst. rewrite H2. now apply IH.
Qed.

Lemma zero_number : number 0%float.
Proof. discriminate. Qed.

(** A [maxDistance] that is not above the tolerance: every interior point is
    within the tolerance. *)
Lemma farthest_within start end_ l d k tolerance :
  farthest start end_ l 1 0%float 0 = (d, k) -> JS.gt d tolerance = false ->
  Forall (within tolerance start end_) l.
Proof.
  intros Hf Hgt. destruct (farthest_bound _ _ _ _ _ _ _ _ zero_number Hf) as [H0 Hall].
  destruct (le_numbers _ _ H0) as [_ Hd].
  eapply List.Forall_impl; [|exact Hall]. intros p Hp. unfold within, JS.gt in *.
  destruct (tolerance <? pointToLineDistance p start end_)%float eqn:E; [|reflexivity].
  exfalso. destruct (lt_numbers _ _ E) as [Ht _].
  pose proof (nlt_le _ _ Ht Hd Hgt) as Hle.
  rewrite (le_lt_trans _ _ _ Hle E) in Hp. discriminate.
Qed.

Lemma take_removelast {A} (l : list A) : take (length l - 1) l = removelast l.
Proof.
  destruct l as [|a l] using rev_ind; [reflexivity|].
  rewrite removelast_last, length_app. simpl.
  replace (length l + 1 - 1) with (length l) by lia. apply take_app_length.
Qed.

(** A run of at least two points: its first point, its interior, its last
    point. *)
Lemma run_interior (start : SvgPoint) (rest : list SvgPoint) :
  rest <> [] ->
  start :: rest = start :: interior (start :: rest) ++ [List.last rest start].
Proof.
  intros Hne. unfold interior. cbn [length drop].
  replace (S (length rest) - 2) with (length rest - 1) by lia.
  rewrite take_removelast. f_equal. now apply app_removelast_last.
Qed.

(** Whatever the tolerance, a result of [simplifyPath] is [simplified]. *)
Lemma simplifyPath_simplified tolerance : forall fuel pts out,
  simplifyPath fuel pts tolerance = Some out -> simplified out pts.
Proof.
  induction fuel as [|fuel IH]; intros pts out H; [discriminate|].
  destruct pts as [|start [|p1 [|p2 rest]]];
    try (inversion H; subst; apply simplified_refl).
  destruct (farthest start (List.last (p1 :: p2 :: rest) start)
              (interior (start :: p1 :: p2 :: rest)) 1 0%float 0) as [d k] eqn:Hf.
  rewrite (simplifyPath_step fuel start p1 p2 rest tolerance d k Hf) in H.
  set (pts := start :: p1 :: p2 :: rest) in *.
  destruct (JS.gt d tolerance).
  - destruct (simplifyPath fuel (take (k + 1) pts) tolerance) as [leftPart|] eqn:HL;
      [|discriminate].
    destruct (simplifyPath fuel (drop k pts) tolerance) as [rightPart|] eqn:HR;
      [|discriminate].
    inversion H; subst out. apply IH in HR.
    apply split_index in Hf as [[_ ->]|[Hk1 Hk2]].
    + destruct fuel as [|fuel']; [discriminate|]. simpl in HL. inversion HL; subst.
      exact HR.
    + apply IH in HL. now apply (simplified_join pts _ _ k).
  - assert (out = [start; List.last (p1 :: p2 :: rest) start]) as -> by congruence.
    now apply simplified_ends.
Qed.

Lemma chords_app tolerance L O :
  chords tolerance L O -> forall p l2 o2,
  last L = Some p -> chords tolerance (p :: l2) (p :: o2) ->
  chords tolerance (L ++ l2) (O ++ o2).
Proof.
  induction 1 as [|q|a mid b rest out Hmid Hrest IH]; intros p l2 o2 Hlast H2.
  - discriminate.
  - inversion Hlast; subst. exact H2.
  - simpl. rewrite <- app_assoc. simpl. apply chords_cut; [exact Hmid|].
    apply (IH p l2 o2); [|exact H2].
    change (a :: mid ++ b :: rest) with ((a :: mid) ++ b :: rest) in Hlast.
    rewrite last_app in Hlast.
    destruct (last (b :: rest)) eqn:E; [exact Hlast|].
    now apply last_None in E.
Qed.

Lemma chords_result tolerance : forall fuel pts out,
  simplifyPath fuel pts tolerance = Some out -> chords tolerance pts out.
Proof.
  induction fuel as [|fuel IH]; intros pts out H; [discriminate|].
  destruct pts as [|start [|p1 [|p2 rest]]].
  - inversion H. constructor.
  - inversion H. constructor.
  - inversion H. apply (chords_cut tolerance start [] p1 [] []); constructor.
  - destruct (farthest start (List.last (p1 :: p2 :: rest) start)
                (interior (start :: p1 :: p2 :: rest)) 1 0%float 0) as [d k] eqn:Hf.
    rewrite (simplifyPath_step fuel start p1 p2 rest tolerance d k Hf) in H.
    set (pts := start :: p1 :: p2 :: rest) in *.
    destruct (JS.gt d tolerance) eqn:Hgt.
    + destruct (simplifyPath fuel (take (k + 1) pts) tolerance) as [leftPart|] eqn:HL;
        [|discriminate].
      destruct (simplifyPath fuel (drop k pts) tolerance) as [rightPart|] eqn:HR;
        [|discriminate].
      inversion H; subst out.
      assert (Hk : k < length pts).
      { apply split_index in Hf as [[_ ->]|[_ Hk]]; unfold pts in *; simpl in *; lia. }
      destruct (lookup_lt_is_Some_2 pts k Hk) as [pk Hpk].
      pose proof (simplifyPath_simplified _ _ _ _ HL) as [_ _ Ll].
      pose proof (simplifyPath_simplified _ _ _ _ HR) as [_ Rh _].
      replace (k + 1) with (S k) in * by lia.
      rewrite (take_S_r _ _ _ Hpk), last_snoc in Ll.
      rewrite (drop_S _ _ _ Hpk) in Rh, HR.
      destruct rightPart as [|r right']; [discriminate|]. inversion Rh; subst r.
      rewrite (join_halves leftPart (pk :: right') right' pk Ll eq_refl).
      rewrite <- (take_drop (S k) pts).
      apply (chords_app tolerance _ _ (IH _ _ HL) pk); [|now apply IH].
      now rewrite (take_S_r _ _ _ Hpk), last_snoc.
    + assert (out = [start; List.last (p1 :: p2 :: rest) start]) as -> by congruence.
      unfold pts at 1.
      rewrite (run_interior start (p1 :: p2 :: rest)) by discriminate.
      apply chords_cut; [|constructor].
      now apply (farthest_within _ _ _ d k).
Qed.

(** Two neighbours of the result enclose, in the run, points that are within
    the tolerance of their chord. *)
Lemma chords_neighbours tolerance pts out :
  chords tolerance pts out -> forall o1 a b o2,
  out = o1 ++ a :: b :: o2 ->
  exists l1 mid l2, pts = l1 ++ a :: mid ++ b :: l2 /\ Forall (within tolerance a b) mid.
Proof.
  induction 1 as [|q|a' mid b' rest out Hmid Hrest IH]; intros o1 a b o2 E.
  - now destruct o1.
  - destruct o1 as [|? [|? ?]]; discriminate.
  - destruct o1 as [|x o1]; simpl in E.
    + injection E as -> -> ->. now exists [], mid, rest.
    + injection E as -> E.
      destruct (IH o1 a b o2 E) as (l1 & mid' & l2 & Hpts & Hall).
      exists (x :: mid ++ l1), mid', l2. split; [|exact Hall].
      rewrite Hpts. simpl. now rewrite <- app_assoc.
Qed.

Lemma removelast_take {A} (l : list A) (k : nat) :
  k < length l -> removelast (take (S k) l) = take k l.
Proof.
  intros Hk. destruct (lookup_lt_is_Some_2 l k Hk) as [pk Hpk].
  rewrite (take_S_r _ _ _ Hpk). apply removelast_last.
Qed.

(** X1: whatever the tolerance, a result of [simplifyPath] cuts the run into
    consecutive stretches, each running from one kept point to the next, and
    every point dropped from a stretch is within the tolerance of the chord
    between the two kept points that enclose it (the distance being the one
    [pointToLineDistance] computes).  In particular two neighbours of the
    result enclose, in the run, only such points. *)
Theorem simplifyPath_fidelity (fuel : nat) (pts out : list SvgPoint) (tolerance : float) :
  simplifyPath fuel pts tolerance = Some out ->
  chords tolerance pts out
  /\ forall o1 a b o2, out = o1 ++ a :: b :: o2 ->
       exists l1 mid l2,
         pts = l1 ++ a :: mid ++ b :: l2 /\ Forall (within tolerance a b) mid.
Proof.
  intros H. pose proof (chords_result tolerance fuel pts out H) as Hc.
  split; [exact Hc|]. intros o1 a b o2. now apply chords_neighbours.
Qed.

Lemma simplifyPath_fidelity_witness :
  chords 4.5 zigzag [planar 0 0; planar 1 5; planar 2 0; planar 4 0]
  /\ exists l1 mid l2,
       zigzag = l1 ++ planar 2 0 :: mid ++ planar 4 0 :: l2
       /\ Forall (within 4.5 (planar 2 0) (planar 4 0)) mid.
Proof.
  destruct (simplifyPath_fidelity 6 zigzag _ 4.5 eq_refl) as [Hc Hn].
  split; [exact Hc|].
  exact (Hn [planar 0 0; planar 1 5] (planar 2 0) (planar 4 0) [] eq_refl).
Defined.



(** X3: with a negative tolerance [simplifyPath] removes nothing: whenever
    it returns, it returns the run as it was given. *)
Theorem simplifyPath_negative_tolerance_keeps_all (fuel : nat) (pts : list SvgPoint)
  (tolerance : float) :
  (tolerance <? 0)%float = true ->
  simplifyPath fuel pts tolerance = None \/ simplifyPath fuel pts tolerance = Some pts.
Proof.
  intros Htol. revert pts. induction fuel as [|fuel IH]; intros pts; [now left|].
  destruct pts as [|start [|p1 [|p2 rest]]]; try (right; reflexivity).
  destruct (farthest start (List.last (p1 :: p2 :: rest) start)
              (interior (start :: p1 :: p2 :: rest)) 1 0%float 0) as [d k] eqn:Hf.
  rewrite (simplifyPath_step fuel start p1 p2 rest tolerance d k Hf).
  set (pts := start :: p1 :: p2 :: rest) in *.
  destruct (farthest_bound _ _ _ _ _ _ _ _ zero_number Hf) as [H0 _].
  assert (Hgt : JS.gt d tolerance = true) by exact (lt_le_trans _ _ _ Htol H0).
  rewrite Hgt.
  assert (Hk : k < length pts).
  { apply split_index in Hf as [[_ ->]|[_ Hk]]; unfold pts in *; simpl in *; lia. }
  destruct (IH (take (k + 1) pts)) as [->| ->]; [now left|].
  destruct (IH (drop k pts)) as [->| ->]; [now left|].
  right. replace (k + 1) with (S k) by lia.
  now rewrite (removelast_take pts k Hk), take_drop.
Qed.

Lemma simplifyPath_negative_tolerance_keeps_all_witness :
  simplifyPath 3 (take 3 zigzag) (-1) = Some (take 3 zigzag).
Proof.
  destruct (simplifyPath_negative_tolerance_keeps_all 3 (take 3 zigzag) (-1) eq_refl)
    as [H|H]; [discriminate H | exact H].
Defined.



(** X5: a tolerance that is NaN or [+Infinity] is above no distance, so every
    run of at least three points is reduced to its two end points, whatever
    lies between them. *)
Theorem simplifyPath_unbounded_tolerance (fuel : nat) (start p1 p2 : SvgPoint)
  (rest : list SvgPoint) (tolerance : float) :
  tolerance = nan \/ tolerance = infinity ->
  simplifyPath (S fuel) (start :: p1 :: p2 :: rest) tolerance
  = Some [start; List.last (p1 :: p2 :: rest) start].
Proof.
  intros Htol.
  destruct (farthest start (List.last (p1 :: p2 :: rest) start)
              (interior (start :: p1 :: p2 :: rest)) 1 0%float 0) as [d k] eqn:Hf.
  rewrite (simplifyPath_step fuel start p1 p2 rest tolerance d k Hf).
  assert (Hgt : JS.gt d tolerance = false).
  { unfold JS.gt. destruct Htol as [->| ->]; [apply lt_nan_l | apply lt_infinity_l]. }
  now rewrite Hgt.
Qed.

Lemma simplifyPath_unbounded_tolerance_witness :
  simplifyPath 1 zigzag nan = Some [planar 0 0; planar 4 0].
Proof.
  apply (simplifyPath_unbounded_tolerance 0 (planar 0 0) (planar 1 5) (planar 2 0)
           [planar 3 4; planar 4 0] nan).
  now left.
Defined.

(** X6: whatever the tolerance (negative, NaN and infinite ones included),
    a result of [simplifyPath] is a subsequence of the run with the same
    first and the same last point, and has at least two points when the run
    has. *)
Theorem simplifyPath_result_any_tolerance (fuel : nat) (pts out : list SvgPoint)
  (tolerance : float) :
  simplifyPath fuel pts tolerance = Some out ->
  out `sublist_of` pts
  /\ head out = head pts
  /\ last out = last pts
  /\ (2 <= length pts -> 2 <= length out).
Proof.
  intros H. destruct (simplifyPath_simplified tolerance fuel pts out H) as [Hs Hh Hl].
  repeat split; trivial. now apply (simplifyPath_two tolerance fuel pts out).
Qed.

Lemma simplifyPath_result_any_tolerance_witness :
  [planar 0 0; planar 4 0] `sublist_of` zigzag
  /\ head [planar 0 0; planar 4 0] = head zigzag
  /\ last [planar 0 0; planar 4 0] = last zigzag
  /\ (2 <= length zigzag -> 2 <= length [planar 0 0; planar 4 0]).
Proof.
  apply (simplifyPath_result_any_tolerance 1 zigzag _ infinity). reflexivity.
Defined.

(** *** Simplifying twice *)

Lemma Forall_sublist {A} (P : A -> Prop) (l1 l2 : list A) :
  l1 `sublist_of` l2 -> Forall P l2 -> Forall P l1.
Proof.
  induction 1 as [|x l1 l2 _ IH|x l1 l2 _ IH]; intros H; [constructor| |];
    inversion H; subst; [constructor|]; auto.
Qed.

Lemma In_sublist {A} (x : A) (l1 l2 : list A) :
  l1 `sublist_of` l2 -> In x l1 -> In x l2.
Proof.
  induction 1 as [|y l1 l2 _ IH|y l1 l2 _ IH]; simpl; intros H; [tauto| |]; tauto.
Qed.

Lemma farthest_app start end_ l1 l2 : forall i d k,
  farthest start end_ (l1 ++ l2) i d k =
  farthest start end_ l2 (i + length l1)
    (fst (farthest start end_ l1 i d k)) (snd (farthest start end_ l1 i d k)).
Proof.
  induction l1 as [|p l1 IH]; simpl; intros i d k.
  - now rewrite Nat.add_0_r.
  - destruct (JS.gt (pointToLineDistance p start end_) d); rewrite IH;
      now replace (S i + length l1) with (i + S (length l1)) by lia.
Qed.

(** A scan that moved [maxIndex] stopped for the last time at the point of
    that index: the points before it left a smaller [maxDistance], and no
    point after it is farther. *)
Lemma farthest_split start end_ l : forall i d0 k0 d k,
  number d0 -> k0 < i -> i <= k ->
  farthest start end_ l i d0 k0 = (d, k) ->
  exists A p C,
    l = A ++ p :: C /\ i + length A = k
    /\ JS.gt (pointToLineDistance p start end_) (fst (farthest start end_ A i d0 k0)) = true
    /\ pointToLineDistance p start end_ = d
    /\ Forall (fun q => JS.gt (pointToLineDistance q start end_) d = false) C.
Proof.
  induction l as [|p l IH]; simpl; intros i d0 k0 d k Hd0 Hk0 Hik H.
  - inversion H; subst. lia.
  - destruct (JS.gt (pointToLineDistance p start end_) d0) eqn:Hgt.
    + destruct (lt_numbers _ _ Hgt) as [_ Hn].
      destruct (farthest_index _ _ _ _ _ _ _ _ H) as [[-> ->]|Hlater].
      * exists [], p, l. simpl. repeat split; trivial; [lia|].
        now destruct (farthest_bound _ _ _ _ _ _ _ _ Hn H).
      * destruct (IH (S i) _ i d k Hn) as (A & q & C & -> & Hlen & Hq & Hd & HC);
          [lia | lia | exact H |].
        exists (p :: A), q, C. simpl. rewrite Hgt. repeat split; trivial. lia.
    + destruct (farthest_index _ _ _ _ _ _ _ _ H) as [[-> ->]|Hlater]; [lia|].
      destruct (IH (S i) d0 k0 d k Hd0) as (A & q & C & -> & Hlen & Hq & Hd & HC);
        [lia | lia | exact H |].
      exists (p :: A), q, C. simpl. rewrite Hgt. repeat split; trivial. lia.
Qed.

(** Dropping points on either side of the farthest point does not change
    what the scan finds. *)
Lemma farthest_sublist start end_ (A A' C C' : list SvgPoint) (p : SvgPoint) i d0 k0 :
  number d0 ->
  A' `sublist_of` A -> C' `sublist_of` C ->
  JS.gt (pointToLineDistance p start end_) (fst (farthest start end_ A i d0 k0)) = true ->
  Forall (fun q => JS.gt (pointToLineDistance q start end_)
                         (pointToLineDistance p start end_) = false) C ->
  farthest start end_ (A' ++ p :: C') i d0 k0
  = (pointToLineDistance p start end_, i + length A').
Proof.
  intros Hd0 HA HC Hp HallC.
  destruct (farthest start end_ A i d0 k0) as [m k1] eqn:EA.
  destruct (farthest start end_ A' i d0 k0) as [m' k1'] eqn:EA'.
  rewrite farthest_app, EA'. cbn [fst snd farthest] in Hp |- *.
  destruct (farthest_bound _ _ _ _ _ _ _ _ Hd0 EA) as [H0m HallA].
  destruct (farthest_bound _ _ _ _ _ _ _ _ Hd0 EA') as [H0m' _].
  assert (Hle : (m' <=? m)%float = true).
  { destruct (farthest_found _ _ _ _ _ _ _ _ EA') as [[-> _]|(q & Hq & <-)]; [exact H0m|].
    apply nlt_le.
    - now destruct (le_numbers _ _ H0m).
    - now destruct (le_numbers _ _ H0m').
    - apply (In_sublist _ _ _ HA) in Hq.
      rewrite List.Forall_forall in HallA. exact (HallA q Hq). }
  assert (Hgt : JS.gt (pointToLineDistance p start end_) m' = true)
    by exact (le_lt_trans _ _ _ Hle Hp).
  rewrite Hgt. apply farthest_unchanged. now apply (Forall_sublist _ C' C).
Qed.

(** More fuel does not change a result. *)
Lemma simplifyPath_more_fuel tolerance : forall fuel pts out,
  simplifyPath fuel pts tolerance = Some out ->
  simplifyPath (S fuel) pts tolerance = Some out.
Proof.
  induction fuel as [|fuel IH]; intros pts out H; [discriminate|].
  destruct pts as [|start [|p1 [|p2 rest]]]; try exact H.
  destruct (farthest start (List.last (p1 :: p2 :: rest) start)
              (interior (start :: p1 :: p2 :: rest)) 1 0%float 0) as [d k] eqn:Hf.
  rewrite (simplifyPath_step fuel start p1 p2 rest tolerance d k Hf) in H.
  rewrite (simplifyPath_step (S fuel) start p1 p2 rest tolerance d k Hf).
  destruct (JS.gt d tolerance); [|exact H].
  destruct (simplifyPath fuel (take (k + 1) (start :: p1 :: p2 :: rest)) tolerance)
    as [leftPart|] eqn:HL; [|discriminate].
  destruct (simplifyPath fuel (drop k (start :: p1 :: p2 :: rest)) tolerance)
    as [rightPart|] eqn:HR; [|discriminate].
  now rewrite (IH _ _ HL), (IH _ _ HR).
Qed.

(** One step of the recursion, on a run given by its two ends and its
    interior. *)
Lemma simplifyPath_step_run fuel start end_ (M : list SvgPoint) tolerance d k :
  M <> [] ->
  farthest start end_ M 1 0%float 0 = (d, k) ->
  simplifyPath (S fuel) (start :: M ++ [end_]) tolerance =
  if JS.gt d tolerance then
    match simplifyPath fuel (take (k + 1) (start :: M ++ [end_])) tolerance with
    | None => None
    | Some leftPart =>
        match simplifyPath fuel (drop k (start :: M ++ [end_])) tolerance with
        | None => None
        | Some rightPart => Some (removelast leftPart ++ rightPart)
        end
    end
  else Some [start; end_].
Proof.
  intros HM Hf.
  assert (Hlast : List.last (M ++ [end_]) start = end_) by apply List.last_last.
  assert (Hint : interior (start :: M ++ [end_]) = M).
  { unfold interior. change (drop 1 (start :: M ++ [end_])) with (M ++ [end_]).
    replace (length (start :: M ++ [end_]) - 2) with (length M)
      by (cbn [length]; rewrite length_app; simpl; lia).
    apply take_app_length. }
  destruct M as [|p1 M]; [congruence|].
  destruct (M ++ [end_]) as [|p2 rest] eqn:E; [now destruct M|].
  change ((p1 :: M) ++ [end_]) with (p1 :: (M ++ [end_])) in *. rewrite E in *.
  rewrite <- Hint, <- Hlast in Hf.
  rewrite (simplifyPath_step fuel start p1 p2 rest tolerance d k Hf).
  now rewrite Hlast.
Qed.

(** A simplification of a run with two ends: the same ends, around a
    subsequence of the interior. *)
Lemma simplified_run (out M : list SvgPoint) (a b : SvgPoint) :
  simplified out (a :: M ++ [b]) -> 2 <= length out ->
  exists M', out = a :: M' ++ [b] /\ M' `sublist_of` M.
Proof.
  intros [Hs Hh Hl] Hlen.
  destruct out as [|a' out]; [simpl in Hlen; lia|].
  simpl in Hh. inversion Hh; subst a'.
  destruct out as [|x out] using rev_ind; [simpl in Hlen; lia|].
  change (a :: M ++ [b]) with ((a :: M) ++ [b]) in Hl.
  change (a :: out ++ [x]) with ((a :: out) ++ [x]) in Hl.
  rewrite !last_snoc in Hl. inversion Hl; subst x.
  exists out. split; [reflexivity|].
  apply (sublist_app_inv_r [b]), (sublist_app_inv_l [a]). exact Hs.
Qed.

(** X7: simplifying the result of [simplifyPath] again, with the same
    tolerance, returns it unchanged: the farthest point of the result is the
    farthest point of the run, and the two halves are results themselves. *)
Theorem simplifyPath_idempotent (tolerance : float) : forall fuel pts out,
  simplifyPath fuel pts tolerance = Some out ->
  simplifyPath fuel out tolerance = Some out.
Proof.
  induction fuel as [|fuel IH]; intros pts out H; [discriminate|].
  destruct pts as [|start [|p1 [|p2 rest]]]; try (inversion H; subst; reflexivity).
  set (end_ := List.last (p1 :: p2 :: rest) start).
  destruct (farthest start end_ (interior (start :: p1 :: p2 :: rest)) 1 0%float 0)
    as [d k] eqn:Hf.
  rewrite (simplifyPath_step fuel start p1 p2 rest tolerance d k Hf) in H. fold end_ in H.
  pose proof (run_interior start (p1 :: p2 :: rest)) as Hrun. fold end_ in Hrun.
  set (pts := start :: p1 :: p2 :: rest) in *.
  destruct (JS.gt d tolerance) eqn:Hgt;
    [|assert (out = [start; end_]) as -> by congruence; reflexivity].
  destruct (simplifyPath fuel (take (k + 1) pts) tolerance) as [leftPart|] eqn:HL;
    [|discriminate].
  destruct (simplifyPath fuel (drop k pts) tolerance) as [rightPart|] eqn:HR;
    [|discriminate].
  assert (out = removelast leftPart ++ rightPart) as -> by congruence.
  destruct (split_index _ _ _ _ _ Hf) as [[_ ->]|[Hk1 Hk2]].
  { (* the whole run again on the right *)
    destruct fuel as [|fuel']; [discriminate|]. simpl in HL.
    assert (leftPart = [start]) as -> by congruence.
    apply simplifyPath_more_fuel. exact (IH _ _ HR). }
  destruct (farthest_split _ _ _ _ _ _ _ _ zero_number (Nat.lt_0_1) Hk1 Hf)
    as (A & pk & C & HM & HlenA & Hpk & Hd & HC).
  rewrite Hrun, HM in HL, HR by discriminate.
  assert (Htake : take (k + 1) (start :: (A ++ pk :: C) ++ [end_]) = start :: A ++ [pk]).
  { rewrite <- app_assoc. simpl.
    replace (k + 1) with (S (length (A ++ [pk]))) by (rewrite length_app; simpl; lia).
    cbn [take]. f_equal.
    change (A ++ pk :: C ++ [end_]) with (A ++ [pk] ++ C ++ [end_]).
    rewrite app_assoc. apply take_app_length. }
  assert (Hdrop : drop k (start :: (A ++ pk :: C) ++ [end_]) = pk :: C ++ [end_]).
  { rewrite <- app_assoc. simpl.
    replace k with (S (length A)) by lia. cbn [drop]. apply drop_app_length. }
  rewrite Htake in HL. rewrite Hdrop in HR.
  destruct (simplified_run leftPart A start pk) as (A' & -> & HA').
  { exact (simplifyPath_simplified _ _ _ _ HL). }
  { apply (simplifyPath_two _ _ _ _ HL). rewrite length_cons, length_app. simpl. lia. }
  destruct (simplified_run rightPart C pk end_) as (C' & -> & HC').
  { exact (simplifyPath_simplified _ _ _ _ HR). }
  { apply (simplifyPath_two _ _ _ _ HR). rewrite length_cons, length_app. simpl. lia. }
  apply IH in HL, HR.
  change (start :: A' ++ [pk]) with ((start :: A') ++ [pk]).
  rewrite removelast_last.
  replace ((start :: A') ++ pk :: C' ++ [end_]) with (start :: (A' ++ pk :: C') ++ [end_])
    by (simpl; now rewrite <- app_assoc).
  rewrite (simplifyPath_step_run fuel start end_ (A' ++ pk :: C') tolerance d (1 + length A')).
  - rewrite Hgt.
    assert (Htake' : take (1 + length A' + 1) (start :: (A' ++ pk :: C') ++ [end_])
                     = start :: A' ++ [pk]).
    { rewrite <- app_assoc. simpl.
      replace (length A' + 1) with (length (A' ++ [pk])) by (rewrite length_app; simpl; lia).
      f_equal.
      change (A' ++ pk :: C' ++ [end_]) with (A' ++ [pk] ++ C' ++ [end_]).
      rewrite app_assoc. apply take_app_length. }
    assert (Hdrop' : drop (1 + length A') (start :: (A' ++ pk :: C') ++ [end_])
                     = pk :: C' ++ [end_]).
    { rewrite <- app_assoc. simpl. apply drop_app_length. }
    rewrite Htake', Hdrop', HL, HR.
    change (start :: A' ++ [pk]) with ((start :: A') ++ [pk]).
    rewrite removelast_last. simpl. now rewrite <- app_assoc.
  - now destruct A'.
  - rewrite <- Hd. apply (farthest_sublist start end_ A A' C C' pk 1 0%float 0);
      trivial; [apply zero_number | now rewrite Hd].
Qed.

Lemma simplifyPath_idempotent_witness :
  simplifyPath 6 [planar 0 0; planar 1 5; planar 2 0; planar 4 0] 4.5
  = Some [planar 0 0; planar 1 5; planar 2 0; planar 4 0].
Proof.
  apply (simplifyPath_idempotent 4.5 6 zigzag). reflexivity.
Defined.

(** *** What the scan finds *)



End SimplifierExtras.

(** ** Drawing the route *)

Module Drawing.
Import StickyRouteMap Notions MoreNotions FloatOrder FloatArith FloatFacts.

Lemma drawPaths_length pathLengths routeRefs : forall index remainingDistance,
  length (drawPaths pathLengths index remainingDistance routeRefs) = length routeRefs.
Proof.
  induction routeRefs as [|pathElement rest IH]; intros index r; [reflexivity|].
  cbn [drawPaths].
  destruct pathElement as [e|]; [|simpl; now rewrite IH].
  destruct (pathLengths !! index) as [pathLength|]; [|simpl; now rewrite IH].
  destruct (JS.truthy pathLength); [|simpl; now rewrite IH].
  destruct (le r 0); [|destruct (ge r pathLength)]; simpl; now rewrite IH.
Qed.

(** Once nothing remains, every path that can be drawn is hidden. *)
Lemma drawPaths_nothing_left pathLengths routeRefs : forall index remainingDistance i e pathLength,
  le remainingDistance 0 = true ->
  drawPaths pathLengths index remainingDistance routeRefs !! i = Some (Some e) ->
  pathLengths !! (index + i) = Some pathLength -> JS.truthy pathLength = true ->
  style e = hidden pathLength.
Proof.
  induction routeRefs as [|pathElement rest IH]; intros index r i e pathLength Hr He Hl Ht;
    [discriminate|].
  cbn [drawPaths] in He.
  assert (Hrest : forall e0, i <> 0 ->
    (e0 :: drawPaths pathLengths (S index) r rest) !! i = Some (Some e) ->
    style e = hidden pathLength).
  { intros e0 Hi H0. destruct i as [|i']; [congruence|]. simpl in H0.
    apply (IH (S index) r i' e pathLength); trivial.
    now replace (S index + i') with (index + S i') by lia. }
  destruct i as [|i'].
  - rewrite Nat.add_0_r in Hl. rewrite Hl in He.
    destruct pathElement as [e0|]; [|discriminate]. rewrite Ht, Hr in He.
    simpl in He. now inversion He.
  - destruct pathElement as [e0|]; [|now apply (Hrest None)].
    destruct (pathLengths !! index) as [l0|]; [|now apply (Hrest (Some e0))].
    destruct (JS.truthy l0); [|now apply (Hrest (Some e0))].
    rewrite Hr in He. now apply (Hrest (Some (setStyle e0 (px l0) (px l0)))).
Qed.

Lemma le_zero_zero : le 0 0 = true.
Proof. reflexivity. Qed.

(** A path that is not hidden comes after paths drawn in full only. *)
Lemma drawPaths_in_order pathLengths routeRefs : forall index remainingDistance i j ei ej li lj,
  i < j ->
  drawPaths pathLengths index remainingDistance routeRefs !! i = Some (Some ei) ->
  pathLengths !! (index + i) = Some li -> JS.truthy li = true ->
  drawPaths pathLengths index remainingDistance routeRefs !! j = Some (Some ej) ->
  pathLengths !! (index + j) = Some lj -> JS.truthy lj = true ->
  style ej <> hidden lj ->
  style ei = drawn li.
Proof.
  induction routeRefs as [|pathElement rest IH];
    intros index r i j ei ej li lj Hij Hi Hli Hti Hj Hlj Htj Hshown; [discriminate|].
  cbn [drawPaths] in Hi, Hj.
  destruct j as [|j']; [lia|].
  replace (index + S j') with (S index + j') in Hlj by lia.
  destruct i as [|i'].
  - rewrite Nat.add_0_r in Hli. rewrite Hli in Hi, Hj.
    destruct pathElement as [e0|]; [|discriminate]. rewrite Hti in Hi, Hj.
    destruct (le r 0) eqn:Hr.
    + exfalso. apply Hshown. simpl in Hj.
      exact (drawPaths_nothing_left _ _ _ _ _ _ _ Hr Hj Hlj Htj).
    + destruct (ge r li).
      * simpl in Hi. now inversion Hi.
      * exfalso. apply Hshown. simpl in Hj.
        exact (drawPaths_nothing_left _ _ _ _ _ _ _ le_zero_zero Hj Hlj Htj).
  - replace (index + S i') with (S index + i') in Hli by lia.
    assert (Hrest : forall e0 r',
      (e0 :: drawPaths pathLengths (S index) r' rest) !! S i' = Some (Some ei) ->
      (e0 :: drawPaths pathLengths (S index) r' rest) !! S j' = Some (Some ej) ->
      style ei = drawn li).
    { intros e0 r' H1 H2. simpl in H1, H2.
      apply (IH (S index) r' i' j' ei ej li lj); trivial. lia. }
    destruct pathElement as [e0|]; [|now apply (Hrest None r)].
    destruct (pathLengths !! index) as [l0|]; [|now apply (Hrest (Some e0) r)].
    destruct (JS.truthy l0); [|now apply (Hrest (Some e0) r)].
    destruct (le r 0); [now apply (Hrest (Some (setStyle e0 (px l0) (px l0))) r)|].
    destruct (ge r l0).
    + now apply (Hrest (Some (setStyle e0 (px l0) (px 0))) (r - l0)%float).
    + now apply (Hrest (Some (setStyle e0 (px l0) (px (l0 - r)))) 0%float).
Qed.

(** X9: [updatePathDrawing] draws the paths in order: a path that is not
    left hidden comes after paths drawn in full only (a path counts when its
    element is there and its entry of [pathLengths] is truthy; the others
    are skipped). *)
Theorem updatePathDrawing_in_order (pathLengths : list float) (progress : float)
  (routeRefs : list (option SVGPathElement)) (i j : nat) (ei ej : SVGPathElement)
  (li lj : float) :
  i < j ->
  updatePathDrawing false pathLengths progress routeRefs !! i = Some (Some ei) ->
  pathLengths !! i = Some li -> JS.truthy li = true ->
  updatePathDrawing false pathLengths progress routeRefs !! j = Some (Some ej) ->
  pathLengths !! j = Some lj -> JS.truthy lj = true ->
  style ej <> hidden lj ->
  style ei = drawn li.
Proof.
  unfold updatePathDrawing. cbv iota zeta. intros Hij Hi Hli Hti Hj Hlj Htj Hshown.
  exact (drawPaths_in_order _ _ 0 _ i j ei ej li lj Hij Hi Hli Hti Hj Hlj Htj Hshown).
Qed.

Lemma updatePathDrawing_in_order_witness :
  style (setStyle (route 10) (px 10) (px 0)) = drawn 10.
Proof.
  apply (updatePathDrawing_in_order (measurePaths threeRoutes) 0.75 threeRoutes 0 1
           (setStyle (route 10) (px 10) (px 0)) (setStyle (route 20) (px 20) (px 0))
           10 20); try reflexivity; [lia | discriminate].
Defined.

(** The clamp [Math.max(0, Math.min(1, progress))] of a progress that is
    not above [0]. *)
Lemma clamp_low progress :
  le progress 0 = true -> JS.Math_max [0%float; JS.Math_min [1%float; progress]] = 0%float.
Proof.
  unfold le. intros Hle.
  destruct (le_numbers _ _ Hle) as [Hn _]. apply is_nan_number in Hn.
  assert (Hlt : (progress <? 1)%float = true) by (apply (le_lt_trans _ 0%float); trivial).
  assert (Hmin : JS.Math_min [1%float; progress] = progress).
  { unfold JS.Math_min. cbn [fold_left].
    change (JS.min_step infinity 1) with 1%float.
    unfold JS.min_step. now rewrite Hn, Hlt. }
  rewrite Hmin. unfold JS.Math_max. cbn [fold_left].
  change (JS.max_step neg_infinity 0) with 0%float.
  unfold JS.max_step. rewrite Hn.
  destruct (0 <? progress)%float eqn:E; [exfalso; exact (le_lt_absurd _ _ Hle E)|].
  change (JS.is_neg_zero 0) with false. now rewrite andb_false_r.
Qed.

Lemma mul_zero_finite y : finite y -> le (0 * y) 0 = true.
Proof.
  unfold JS.finite, le. rewrite FloatAxioms.leb_spec, FloatAxioms.mul_spec.
  change (Prim2SF 0) with (S754_zero false).
  destruct (Prim2SF y) as [s|s| |s m e]; simpl; tauto || reflexivity.
Qed.

(** X10: with a progress that is not above [0] (and a finite total length)
    [updatePathDrawing] hides every path it draws at all. *)
Theorem updatePathDrawing_start (pathLengths : list float) (progress : float)
  (routeRefs : list (option SVGPathElement)) (i : nat) (e : SVGPathElement)
  (pathLength : float) :
  le progress 0 = true -> finite (totalPathLength pathLengths) ->
  updatePathDrawing false pathLengths progress routeRefs !! i = Some (Some e) ->
  pathLengths !! i = Some pathLength -> JS.truthy pathLength = true ->
  style e = hidden pathLength.
Proof.
  unfold updatePathDrawing. cbv iota zeta. intros Hp Hfin He Hl Ht.
  rewrite (clamp_low progress Hp) in He.
  exact (drawPaths_nothing_left _ _ 0 _ i e pathLength (mul_zero_finite _ Hfin) He Hl Ht).
Qed.

Lemma updatePathDrawing_start_witness :
  style (setStyle (route 30) (px 30) (px 30)) = hidden 30.
Proof.
  apply (updatePathDrawing_start (measurePaths threeRoutes) (-0.5) threeRoutes 2
           (setStyle (route 30) (px 30) (px 30)) 30); (exact I || reflexivity).
Defined.

Lemma drawPaths_again pathLengths routeRefs : forall index r1 r2,
  drawPaths pathLengths index r1 (drawPaths pathLengths index r2 routeRefs)
  = drawPaths pathLengths index r1 routeRefs.
Proof.
  induction routeRefs as [|pathElement rest IH]; intros index r1 r2; [reflexivity|].
  cbn [drawPaths].
  destruct pathElement as [e|]; [|cbn [drawPaths]; now rewrite IH].
  destruct (pathLengths !! index) as [pathLength|] eqn:El;
    [|cbn [drawPaths]; now rewrite El, IH].
  destruct (JS.truthy pathLength) eqn:Et;
    [|cbn [drawPaths]; now rewrite El, Et, IH].
  destruct (le r2 0); [|destruct (ge r2 pathLength)];
    cbn [drawPaths]; rewrite El, Et;
    (destruct (le r1 0); [|destruct (ge r1 pathLength)]); now rewrite IH.
Qed.

(** X11: the drawing depends on the latest progress only: an update after
    another update gives what it gives on its own, whatever the earlier
    progress was. *)
Theorem updatePathDrawing_latest (prefersReducedMotion : bool) (pathLengths : list float)
  (earlier progress : float) (routeRefs : list (option SVGPathElement)) :
  updatePathDrawing prefersReducedMotion pathLengths progress
    (updatePathDrawing prefersReducedMotion pathLengths earlier routeRefs)
  = updatePathDrawing prefersReducedMotion pathLengths progress routeRefs.
Proof.
  unfold updatePathDrawing. destruct prefersReducedMotion; [reflexivity|].
  apply drawPaths_again.
Qed.

(** The clamp of a progress that is not below [1]. *)
Lemma clamp_high progress :
  le 1 progress = true -> JS.Math_max [0%float; JS.Math_min [1%float; progress]] = 1%float.
Proof.
  unfold le. intros Hle.
  destruct (le_numbers _ _ Hle) as [_ Hn]. apply is_nan_number in Hn.
  assert (Hmin : JS.Math_min [1%float; progress] = 1%float).
  { unfold JS.Math_min. cbn [fold_left].
    change (JS.min_step infinity 1) with 1%float.
    unfold JS.min_step. rewrite Hn.
    destruct (progress <? 1)%float eqn:E; [exfalso; exact (le_lt_absurd _ _ Hle E)|].
    change (JS.is_pos_zero 1) with false. now rewrite andb_false_r. }
  now rewrite Hmin.
Qed.

(** X12: a single route of positive length, as the demo passes it, is drawn
    in full by every progress that is not below [1]: the remaining distance
    is then the length itself, no rounding being involved. *)
Theorem updatePathDrawing_single_route_end (e : SVGPathElement) (pathLength progress : float) :
  (0 <? pathLength)%float = true -> le 1 progress = true ->
  updatePathDrawing false [pathLength] progress [Some e]
  = [Some (setStyle e (px pathLength) (px 0))].
Proof.
  intros Hpos Hp. unfold updatePathDrawing. cbv iota zeta.
  rewrite (clamp_high progress Hp), FloatExact.mul_1_l.
  unfold totalPathLength. cbn [fold_left]. rewrite (FloatExact.add_0_l _ Hpos).
  cbn [drawPaths lookup list_lookup].
  assert (Ht : JS.truthy pathLength = true).
  { unfold JS.truthy. rewrite Hpos. apply orb_true_r. }
  assert (Hle : le pathLength 0 = false).
  { unfold le. destruct (pathLength <=? 0)%float eqn:E; [|reflexivity].
    exfalso. exact (le_lt_absurd _ _ E Hpos). }
  assert (Hge : ge pathLength pathLength = true).
  { unfold ge. apply le_refl. now destruct (lt_numbers _ _ Hpos). }
  now rewrite Ht, Hle, Hge.
Qed.

Lemma updatePathDrawing_single_route_end_witness :
  updatePathDrawing false [0.1%float] 1 [Some (route 0.1)]
  = [Some (setStyle (route 0.1) (px 0.1) (px 0))].
Proof.
  apply (updatePathDrawing_single_route_end (route 0.1) 0.1 1); reflexivity.
Defined.

(** With two routes the sum of the lengths is rounded, and the last route
    may be left short of its end at progress 1: of the lengths 0.3 and 0.6
    the second keeps a dash offset that is not 0. *)
Example updatePathDrawing_two_routes_end :
  updatePathDrawing false [0.3%float; 0.6%float] 1 [Some (route 0.3); Some (route 0.6)]
  = [Some (setStyle (route 0.3) (px 0.3) (px 0));
     Some (setStyle (route 0.6) (px 0.6) (px 0x1p-53))].
Proof. reflexivity. Qed.

(** With every element there, [pathLengths] holds the length of each path
    at the index of the path. *)
Lemma measurePaths_all (elements : list SVGPathElement) :
  measurePaths (map Some elements) = map getTotalLength elements.
Proof.
  induction elements as [|e l IH]; [reflexivity|].
  unfold measurePaths in *. simpl in *. now f_equal.
Qed.

Lemma drawPaths_initial (elements : list SVGPathElement) : forall before remainingDistance,
  le remainingDistance 0 = true ->
  drawPaths (map getTotalLength (before ++ elements)) (length before) remainingDistance
            (initializePaths false (map Some elements))
  = initializePaths false (map Some elements).
Proof.
  induction elements as [|e l IH]; intros before r Hr; [reflexivity|].
  cbn [map initializePaths drawPaths].
  assert (Hl : map getTotalLength (before ++ e :: l) !! length before
               = Some (getTotalLength e)).
  { rewrite list_lookup_fmap, lookup_app_r, Nat.sub_diag by lia. reflexivity. }
  rewrite Hl.
  assert (Hrest : drawPaths (map getTotalLength (before ++ e :: l)) (S (length before)) r
                    (initializePaths false (map Some l))
                  = initializePaths false (map Some l)).
  { specialize (IH (before ++ [e]) r Hr).
    rewrite <- app_assoc, length_app in IH. simpl in IH.
    now replace (length before + 1) with (S (length before)) in IH by lia. }
  fold (initializePaths false (map Some l)).
  destruct (JS.truthy (getTotalLength e)); [rewrite Hr|]; now rewrite Hrest.
Qed.

(** X13: scrolling back to the start restores the initial drawing: after
    the paths were initialized (without reduced motion) and drawn at some
    progress, an update with a progress that is not above [0] leaves every
    path as the initialization left it (all elements being there, and the
    total length finite). *)
Theorem updatePathDrawing_back_to_start (elements : list SVGPathElement)
  (earlier progress : float) :
  let routeRefs := map Some elements in
  let pathLengths := measurePaths routeRefs in
  le progress 0 = true -> finite (totalPathLength pathLengths) ->
  updatePathDrawing false pathLengths progress
    (updatePathDrawing false pathLengths earlier (initializePaths false routeRefs))
  = initializePaths false routeRefs.
Proof.
  intros routeRefs pathLengths Hp Hfin. unfold updatePathDrawing. cbv iota zeta.
  rewrite drawPaths_again, (clamp_low progress Hp).
  subst pathLengths routeRefs. rewrite measurePaths_all in *.
  exact (drawPaths_initial elements [] _ (mul_zero_finite _ Hfin)).
Qed.

Lemma updatePathDrawing_back_to_start_witness :
  updatePathDrawing false (measurePaths threeRoutes) 0
    (updatePathDrawing false (measurePaths threeRoutes) 0.75
       (initializePaths false threeRoutes))
  = initializePaths false threeRoutes.
Proof.
  apply (updatePathDrawing_back_to_start [route 10; route 20; route 30] 0.75 0);
    (exact I || reflexivity).
Defined.

End Drawing.

(** ** The scroll progress *)

Module Scrolling.
Import StickyRouteMap Notions MoreNotions FloatOrder FloatArith FloatFacts.

Lemma SFdiv_nonneg x y :
  SFnonneg x -> SFfinite x -> SFleb (Prim2SF 1) y = true -> SFnonneg (SF64div x y).
Proof.
  change (Prim2SF 1) with (S754_finite false 4503599627370496 (-52)).
  destruct x as [[]|[]| |[] mx ex], y as [sy|[]| |[] my ey]; simpl; try tauto; try discriminate.
  intros _ _ _. unfold SFdiv_core_binary.
  set (m' := match _ with 0%Z => Z.pos mx | Z.pos _ => Z.shiftl (Z.pos mx) _ | Z.neg _ => 0%Z end).
  assert (Hm' : (0 <= m')%Z).
  { subst m'. destruct (_ - _ - _)%Z; try lia. apply Z.shiftl_nonneg. lia. }
  pose proof (Z.div_pos m' (Z.pos my) Hm' ltac:(lia)) as Hq.
  unfold Z.div in Hq. destruct (Z.div_eucl m' (Z.pos my)) as [q r].
  apply SFsigned_nonneg, binary_round_aux_signed. exact Hq.
Qed.

Lemma SFnonneg_le x : SFnonneg x -> SFleb (S754_zero false) x = true.
Proof. destruct x as [[]|[]| |[] m e]; simpl; tauto || reflexivity. Qed.

Lemma nonneg_le x : nonneg x -> (0 <=? x)%float = true.
Proof. unfold nonneg. rewrite FloatAxioms.leb_spec. apply SFnonneg_le. Qed.

Lemma abs_finite x : finite x -> nonneg (Math_abs x) /\ finite (Math_abs x).
Proof.
  unfold JS.finite, nonneg, Math_abs. rewrite FloatAxioms.abs_spec.
  destruct (Prim2SF x) as [s|s| |s m e]; simpl; tauto.
Qed.

Lemma div_nonneg x y :
  nonneg x -> finite x -> (1 <=? y)%float = true -> nonneg (x / y)%float.
Proof.
  unfold nonneg, JS.finite. rewrite FloatAxioms.leb_spec, FloatAxioms.div_spec.
  apply SFdiv_nonneg.
Qed.

(** [Math.max(1, d)] is at least [1] when [d] is a number. *)
Lemma Math_max_one d : number d -> (1 <=? JS.Math_max [1%float; d])%float = true.
Proof.
  intros Hd.
  destruct (BoundsProofs.Math_max_is_max [1%float; d]) as [_ Hall]; [discriminate| |].
  - repeat constructor; [discriminate | exact Hd].
  - now inversion Hall.
Qed.

(** [Math.min(1, q)] lies between [0] and [1] when [q] is not negative. *)
Lemma Math_min_one q :
  nonneg q ->
  (0 <=? JS.Math_min [1%float; q])%float = true
  /\ (JS.Math_min [1%float; q] <=? 1)%float = true.
Proof.
  intros Hq.
  destruct (BoundsProofs.Math_min_is_min [1%float; q]) as [Hin Hall]; [discriminate| |].
  - repeat constructor; [discriminate | now apply nonneg_number].
  - split; [|now inversion Hall].
    destruct Hin as [<-|[<-|[]]]; [reflexivity | now apply nonneg_le].
Qed.

(** X14: for a page whose measures are finite, the progress [handleScroll]
    computes lies between [0] and [1]; it is then what [updatePathDrawing]
    works with, its clamp changing nothing. *)
Theorem handleScroll_progress_range (g : Geometry) :
  finite (sectionTop g) -> finite (sectionHeight g) -> finite (windowHeight g) ->
  (0 <=? handleScroll_progress g)%float = true
  /\ (handleScroll_progress g <=? 1)%float = true.
Proof.
  intros Htop Hheight Hwindow. unfold handleScroll_progress.
  destruct (JS.gt (sectionBottom g) 0 && JS.lt (sectionTop g) (windowHeight g));
    [|split; reflexivity].
  destruct (le (sectionTop g) 0); [|split; reflexivity].
  apply Math_min_one. destruct (abs_finite _ Htop) as [Hn Hf].
  apply div_nonneg; trivial. apply Math_max_one. now apply sub_finite.
Qed.

Lemma handleScroll_progress_range_witness :
  (0 <=? handleScroll_progress
           {| windowHeight := 800; sectionTop := -300; sectionBottom := 1700;
              sectionHeight := 2000 |})%float = true
  /\ (handleScroll_progress
        {| windowHeight := 800; sectionTop := -300; sectionBottom := 1700;
           sectionHeight := 2000 |} <=? 1)%float = true.
Proof.
  apply (handleScroll_progress_range
           {| windowHeight := 800; sectionTop := -300; sectionBottom := 1700;
              sectionHeight := 2000 |}); exact I.
Defined.

End Scrolling.

(** ** More on the bounds *)

Module BoundsExtras.
Import TrackUploader Notions MoreNotions FloatOrder FloatArith FloatFacts BoundsProofs.

Lemma is_max_above m l v : is_max m l -> In v l -> (v <=? m)%float = true.
Proof. intros [_ H] Hv. rewrite List.Forall_forall in H. now apply H. Qed.

Lemma is_min_below m l v : is_min m l -> In v l -> (m <=? v)%float = true.
Proof. intros [_ H] Hv. rewrite List.Forall_forall in H. now apply H. Qed.

(** X15: the bounds of a track whose coordinates are numbers enclose every
    point of the track, and are in order: [south <= north] and
    [west <= east]. *)
Theorem bounds_enclose_track (pts : list GPXPoint) (p : GPXPoint) :
  Forall (fun q => number (lat q) /\ number (lng q)) pts -> In p pts ->
  let b := computeBounds pts in
  ((south b <=? lat p)%float = true /\ (lat p <=? north b)%float = true)
  /\ ((west b <=? lng p)%float = true /\ (lng p <=? east b)%float = true)
  /\ (south b <=? north b)%float = true
  /\ (west b <=? east b)%float = true.
Proof.
  intros Hnum Hp b.
  assert (Hne : forall f : GPXPoint -> float, map f pts <> []).
  { intros f E. destruct pts; [contradiction | discriminate]. }
  assert (Hlats : Forall number (map lat pts)).
  { apply Forall_map. eapply List.Forall_impl; [|exact Hnum]. now intros q [? _]. }
  assert (Hlngs : Forall number (map lng pts)).
  { apply Forall_map. eapply List.Forall_impl; [|exact Hnum]. now intros q [_ ?]. }
  pose proof (Math_max_is_max _ (Hne lat) Hlats) as Hn.
  pose proof (Math_min_is_min _ (Hne lat) Hlats) as Hs.
  pose proof (Math_max_is_max _ (Hne lng) Hlngs) as He.
  pose proof (Math_min_is_min _ (Hne lng) Hlngs) as Hw.
  assert (Hlat : In (lat p) (map lat pts)) by now apply in_map.
  assert (Hlng : In (lng p) (map lng pts)) by now apply in_map.
  subst b. cbn [computeBounds north south east west].
  pose proof (is_max_above _ _ _ Hn Hlat) as H1.
  pose proof (is_min_below _ _ _ Hs Hlat) as H2.
  pose proof (is_max_above _ _ _ He Hlng) as H3.
  pose proof (is_min_below _ _ _ Hw Hlng) as H4.
  repeat split; trivial; eapply le_trans; eassumption.
Qed.

Lemma bounds_enclose_track_witness :
  let b := computeBounds [at_ 0 0; at_ 0 1; at_ 1 1] in
  ((south b <=? 0)%float = true /\ (0 <=? north b)%float = true)
  /\ ((west b <=? 1)%float = true /\ (1 <=? east b)%float = true)
  /\ (south b <=? north b)%float = true
  /\ (west b <=? east b)%float = true.
Proof.
  apply (bounds_enclose_track [at_ 0 0; at_ 0 1; at_ 1 1] (at_ 0 1)).
  - repeat constructor; discriminate.
  - right. now left.
Defined.

Lemma max_step_nan_l n : JS.max_step nan n = nan.
Proof.
  unfold JS.max_step. destruct (is_nan n); [reflexivity|].
  rewrite lt_nan_l. change (JS.is_neg_zero nan) with false. now rewrite andb_false_r.
Qed.

Lemma min_step_nan_l n : JS.min_step nan n = nan.
Proof.
  unfold JS.min_step. destruct (is_nan n); [reflexivity|].
  replace (n <? nan)%float with false.
  - change (JS.is_pos_zero nan) with false. now rewrite andb_false_r.
  - symmetry. exact (gt_nan_l n).
Qed.

Lemma fold_max_step_nan l : fold_left JS.max_step l nan = nan.
Proof. induction l as [|n l IH]; [reflexivity|]. simpl. now rewrite max_step_nan_l. Qed.

Lemma fold_min_step_nan l : fold_left JS.min_step l nan = nan.
Proof. induction l as [|n l IH]; [reflexivity|]. simpl. now rewrite min_step_nan_l. Qed.

(** One NaN among the arguments makes [Math.max] and [Math.min] NaN. *)
Lemma Math_max_min_nan l :
  In nan l -> JS.Math_max l = nan /\ JS.Math_min l = nan.
Proof.
  unfold JS.Math_max, JS.Math_min. generalize neg_infinity, infinity.
  induction l as [|n l IH]; intros h1 h2 Hin; [contradiction|].
  destruct Hin as [->|Hin]; simpl.
  - unfold JS.max_step at 2, JS.min_step at 2. change (is_nan nan) with true. cbv iota.
    split; [apply fold_max_step_nan | apply fold_min_step_nan].
  - now apply IH.
Qed.

(** X16: a single point whose latitude is NaN (a [lat] attribute that
    [parseFloat] cannot read) makes both [north] and [south] NaN, whatever
    the other points are; likewise a NaN longitude for [east] and [west]. *)
Theorem bounds_poisoned_by_NaN (pts : list GPXPoint) (p : GPXPoint) :
  In p pts ->
  (lat p = nan -> north (computeBounds pts) = nan /\ south (computeBounds pts) = nan)
  /\ (lng p = nan -> east (computeBounds pts) = nan /\ west (computeBounds pts) = nan).
Proof.
  intros Hp. cbn [computeBounds north south east west].
  split; intros E; apply Math_max_min_nan; rewrite <- E; now apply in_map.
Qed.

Lemma bounds_poisoned_by_NaN_witness :
  north (computeBounds [at_ 1 2; at_ nan 3; at_ 4 5]) = nan
  /\ south (computeBounds [at_ 1 2; at_ nan 3; at_ 4 5]) = nan.
Proof.
  apply (bounds_poisoned_by_NaN [at_ 1 2; at_ nan 3; at_ 4 5] (at_ nan 3));
    [right; now left | reflexivity].
Defined.

(** *** The order of the points *)

(** [max_step] and [min_step] on the specification of numbers. *)
Lemma SFmax_step_comm h a b :
  SFmax_step (SFmax_step h a) b = SFmax_step (SFmax_step h b) a.
Proof.
  unfold SFmax_step, SFltb, SFcompare.
  destruct h as [[]|[]| |[] mh eh], a as [[]|[]| |[] ma ea], b as [[]|[]| |[] mb eb];
    try reflexivity;
    cbn; cmp_cases; cbn; subst; try reflexivity; try lia;
    cmp_cases; cbn; subst; try reflexivity; try lia.
Qed.

Lemma SFmin_step_comm h a b :
  SFmin_step (SFmin_step h a) b = SFmin_step (SFmin_step h b) a.
Proof.
  unfold SFmin_step, SFltb, SFcompare.
  destruct h as [[]|[]| |[] mh eh], a as [[]|[]| |[] ma ea], b as [[]|[]| |[] mb eb];
    try reflexivity;
    cbn; cmp_cases; cbn; subst; try reflexivity; try lia;
    cmp_cases; cbn; subst; try reflexivity; try lia.
Qed.

Lemma is_nan_spec x : is_nan x = true -> Prim2SF x = S754_nan.
Proof.
  intros H. destruct (Prim2SF x) eqn:E; trivial;
    assert (Hn : number x) by (unfold JS.number; congruence);
    apply is_nan_number in Hn; congruence.
Qed.

Lemma zero_tests x :
  JS.is_pos_zero x = match Prim2SF x with S754_zero false => true | _ => false end
  /\ JS.is_neg_zero x = match Prim2SF x with S754_zero true => true | _ => false end.
Proof.
  unfold JS.is_pos_zero, JS.is_neg_zero. rewrite classify_spec.
  unfold SF64classify, SFclassify.
  destruct (Prim2SF x) as [[]|[]| |[] m e]; try (split; reflexivity);
    destruct (Z.eqb _ _); split; reflexivity.
Qed.

Lemma max_step_spec h n :
  Prim2SF (JS.max_step h n) = SFmax_step (Prim2SF h) (Prim2SF n).
Proof.
  unfold JS.max_step, SFmax_step.
  destruct (is_nan n) eqn:En; [now rewrite (is_nan_spec _ En)|].
  apply is_nan_number in En. unfold JS.number in En.
  rewrite FloatAxioms.ltb_spec.
  destruct (zero_tests n) as [-> _]. destruct (zero_tests h) as [_ ->].
  destruct (Prim2SF n) as [[]|[]| |[] mn en] eqn:E; try congruence;
    destruct (SFltb _ _); try (now rewrite E); try reflexivity;
    destruct (Prim2SF h) as [[]|[]| |[] mh eh] eqn:Eh; cbn; congruence.
Qed.

Lemma min_step_spec h n :
  Prim2SF (JS.min_step h n) = SFmin_step (Prim2SF h) (Prim2SF n).
Proof.
  unfold JS.min_step, SFmin_step.
  destruct (is_nan n) eqn:En; [now rewrite (is_nan_spec _ En)|].
  apply is_nan_number in En. unfold JS.number in En.
  rewrite FloatAxioms.ltb_spec.
  destruct (zero_tests n) as [_ ->]. destruct (zero_tests h) as [-> _].
  destruct (Prim2SF n) as [[]|[]| |[] mn en] eqn:E; try congruence;
    destruct (SFltb _ _); try (now rewrite E); try reflexivity;
    destruct (Prim2SF h) as [[]|[]| |[] mh eh] eqn:Eh; cbn; congruence.
Qed.

(** The order of two arguments does not matter to [Math.max] and
    [Math.min]. *)
Lemma max_step_comm h a b :
  JS.max_step (JS.max_step h a) b = JS.max_step (JS.max_step h b) a.
Proof. apply Prim2SF_inj. rewrite !max_step_spec. apply SFmax_step_comm. Qed.

Lemma min_step_comm h a b :
  JS.min_step (JS.min_step h a) b = JS.min_step (JS.min_step h b) a.
Proof. apply Prim2SF_inj. rewrite !min_step_spec. apply SFmin_step_comm. Qed.

Lemma fold_left_permutation {A S} (f : S -> A -> S) (l l' : list A) :
  (forall s a b, f (f s a) b = f (f s b) a) ->
  Permutation l l' -> forall s, fold_left f l s = fold_left f l' s.
Proof.
  intros Hf. induction 1 as [|x l l' _ IH|x y l|l l' l'' _ IH1 _ IH2]; intros s; simpl.
  - reflexivity.
  - apply IH.
  - now rewrite Hf.
  - now rewrite IH1.
Qed.

(** X17: the bounds do not depend on the order of the points: a track and
    any rearrangement of it, such as the same track recorded in the other
    direction, have the same bounds (NaN and signed zeros included). *)
Theorem bounds_any_order (pts pts' : list GPXPoint) :
  Permutation pts pts' -> computeBounds pts = computeBounds pts'.
Proof.
  intros H. unfold computeBounds, JS.Math_max, JS.Math_min.
  pose proof (Permutation_map lat H) as Hlat.
  pose proof (Permutation_map lng H) as Hlng.
  f_equal.
  - apply fold_left_permutation; [apply max_step_comm | exact Hlat].
  - apply fold_left_permutation; [apply min_step_comm | exact Hlat].
  - apply fold_left_permutation; [apply max_step_comm | exact Hlng].
  - apply fold_left_permutation; [apply min_step_comm | exact Hlng].
Qed.

Lemma bounds_any_order_witness :
  computeBounds [at_ 0 0; at_ 0 1; at_ 1 1] = computeBounds (rev [at_ 0 0; at_ 0 1; at_ 1 1]).
Proof.
  apply (bounds_any_order [at_ 0 0; at_ 0 1; at_ 1 1]). apply Permutation_rev.
Defined.

End BoundsExtras.

(** ** More on the conversion *)

Module ConversionExtras.
Import TrackUploader TrackToSVGConverter Notions MoreNotions FloatOrder FloatArith.
Import Simplifier SimplifierExtras Conversion.

Lemma append_assoc (s1 s2 s3 : string) : ((s1 ++ s2) ++ s3 = s1 ++ s2 ++ s3)%string.
Proof. induction s1 as [|c s1 IH]; simpl; [reflexivity | now rewrite IH]. Qed.

(** The path string grows at its end only. *)
Lemma path_loop_prefix (B : Builtins) (rest : list SvgPoint) : forall init,
  exists tail,
    fold_left
      (fun acc p => (acc ++ " L " ++ toFixed2 B (x p) ++ " " ++ toFixed2 B (y p))%string)
      rest init
    = (init ++ tail)%string.
Proof.
  induction rest as [|p rest IH]; intros init; cbn [fold_left].
  - exists EmptyString. induction init as [|c init IHi]; simpl; [reflexivity | now rewrite <- IHi].
  - destruct (IH (init ++ " L " ++ toFixed2 B (x p) ++ " " ++ toFixed2 B (y p))%string)
      as [tail ->].
    eexists. apply append_assoc.
Qed.

Lemma pathData_start (B : Builtins) (p0 : SvgPoint) (rest : list SvgPoint) :
  exists tail,
    pathData B (p0 :: rest)
    = ("M " ++ toFixed2 B (x p0) ++ " " ++ toFixed2 B (y p0) ++ tail)%string.
Proof.
  unfold pathData. destruct (path_loop_prefix B rest
    ("M " ++ toFixed2 B (x p0) ++ " " ++ toFixed2 B (y p0))%string) as [tail ->].
  exists tail. now rewrite !append_assoc.
Qed.

(** The points [convert] builds the path from: the projected track, or its
    simplification. *)
Lemma convert_drawn (B : Builtins) (trackData : TrackData) (options : option Options)
  (r : SVGTrackData) :
  convert B trackData options = Some r ->
  exists drawn,
    svgPath r = pathData B drawn
    /\ simplified drawn
         (project {| CoordinateTransform.bounds := bounds trackData;
                     CoordinateTransform.width := width r;
                     CoordinateTransform.height := height r;
                     CoordinateTransform.padding := option_or options padding 0.1%float |}
                  (points trackData)).
Proof.
  unfold convert. intros H.
  set (d := CoordinateTransform.calculateOptimalDimensions _ _ _ _) in *.
  set (pts := project _ _) in *.
  destruct (option_or options simplify true && (100 <? length pts)%nat).
  - destruct (simplifyPath (S (length pts)) pts _) as [out|] eqn:E; [|discriminate].
    inversion H; subst r. cbn [svgPath width height]. exists out.
    split; [reflexivity|]. exact (simplifyPath_simplified _ _ _ _ E).
  - inversion H; subst r. cbn [svgPath width height]. exists pts.
    split; [reflexivity | apply simplified_refl].
Qed.

(** X18: the path [convert] emits is empty exactly when the track has no
    point; otherwise it starts with [M] at the projection of the first
    sample of the track, simplified or not. *)
Theorem convert_path_start (B : Builtins) (trackData : TrackData) (options : option Options)
  (r : SVGTrackData) :
  convert B trackData options = Some r ->
  let transform :=
    {| CoordinateTransform.bounds := bounds trackData;
       CoordinateTransform.width := width r;
       CoordinateTransform.height := height r;
       CoordinateTransform.padding := option_or options padding 0.1%float |} in
  (svgPath r = EmptyString <-> points trackData = [])
  /\ (forall p rest, points trackData = p :: rest ->
      let c := CoordinateTransform.gpsToSVG transform (lat p) (lng p) in
      exists tail,
        svgPath r
        = ("M " ++ toFixed2 B (CoordinateTransform.x c) ++ " "
               ++ toFixed2 B (CoordinateTransform.y c) ++ tail)%string).
Proof.
  intros H transform.
  destruct (convert_drawn B trackData options r H) as (drawn & -> & [_ Hh _]).
  fold transform in Hh.
  destruct (points trackData) as [|p rest] eqn:Ep.
  - destruct drawn; [|discriminate]. split; [now split|]. discriminate.
  - cbn [project map head] in Hh. destruct drawn as [|q drawn]; [discriminate|].
    assert (Hx : x q
      = CoordinateTransform.x (CoordinateTransform.gpsToSVG transform (lat p) (lng p)))
      by (injection Hh as ->; reflexivity).
    assert (Hy : y q
      = CoordinateTransform.y (CoordinateTransform.gpsToSVG transform (lat p) (lng p)))
      by (injection Hh as ->; reflexivity).
    destruct (pathData_start B q drawn) as [tail Htail]. rewrite Hx, Hy in Htail.
    split.
    + rewrite Htail. split; discriminate.
    + intros p' rest' E c. injection E as <- <-. now exists tail.
Qed.

Lemma convert_path_start_witness :
  match convert smallAngle triangle None with
  | Some r => exists tail, svgPath r = ("M #.## #.##" ++ tail)%string
  | None => False
  end.
Proof.
  exact (proj2 (convert_path_start smallAngle triangle None _ eq_refl)
               (at_ 0 0) [at_ 0 1; at_ 1 1] eq_refl).
Defined.



End ConversionExtras.

(** ** The canvas of a straight track *)

Module CanvasExtras.
Import TrackUploader CoordinateTransform Notions MoreNotions FloatOrder FloatArith FloatFacts.

Ltac by_cases x :=
  apply Prim2SF_inj;
  rewrite ?FloatAxioms.div_spec, ?FloatAxioms.mul_spec;
  change (Prim2SF 0) with (S754_zero false) in *;
  change (Prim2SF infinity) with (S754_infinity false) in *;
  destruct (Prim2SF x) as [[]|[]| |[] ? ?]; simpl in *; try discriminate; try tauto;
  reflexivity.

Lemma div_pos_zero a : (0 <? a)%float = true -> (a / 0)%float = infinity.
Proof. rewrite FloatAxioms.ltb_spec. intros H. by_cases a. Qed.

Lemma div_pos_infinity a : (0 <? a)%float = true -> finite a -> (a / infinity)%float = 0%float.
Proof. rewrite FloatAxioms.ltb_spec. unfold JS.finite. intros H Hf. by_cases a. Qed.

Lemma mul_zero_pos a : (0 <? a)%float = true -> finite a -> (0 * a)%float = 0%float.
Proof. rewrite FloatAxioms.ltb_spec. unfold JS.finite. intros H Hf. by_cases a. Qed.

Lemma mul_pos_zero a : (0 <? a)%float = true -> finite a -> (a * 0)%float = 0%float.
Proof. rewrite FloatAxioms.ltb_spec. unfold JS.finite. intros H Hf. by_cases a. Qed.

Lemma div_zero_pos a : (0 <? a)%float = true -> (0 / a)%float = 0%float.
Proof. rewrite FloatAxioms.ltb_spec. intros H. by_cases a. Qed.

(** X20: a track that runs due west-east (all points at one latitude) gets
    a canvas of height 0: the aspect ratio is a division by the latitude
    span 0, hence [Infinity], and the height [maxWidth / Infinity]. *)
Theorem canvas_of_west_east_track (B : Builtins) (b : Bounds) (maxWidth maxHeight : float) :
  finite (south b) -> north b = south b ->
  (0 <? (east b - west b) * Math_cos B ((north b + south b) / 2 * JS.Math_PI / 180))%float
  = true ->
  (0 <? maxWidth)%float = true -> finite maxWidth -> (0 <=? maxHeight)%float = true ->
  calculateOptimalDimensions B b maxWidth maxHeight
  = {| dim_width := JS.Math_round maxWidth; dim_height := 0 |}.
Proof.
  intros Hs Hns Hadj Hw Hwf Hh.
  rewrite Projection.calculateOptimalDimensions_cases.
  assert (Ha : aspectRatio B b = infinity).
  { unfold aspectRatio. rewrite Hns in Hadj |- *. rewrite (sub_diag _ Hs).
    now apply div_pos_zero. }
  rewrite Ha, (div_pos_infinity _ Hw Hwf).
  unfold JS.gt. destruct (maxHeight <? 0)%float eqn:E; [|reflexivity].
  exfalso. exact (le_lt_absurd _ _ Hh E).
Qed.

Lemma canvas_of_west_east_track_witness :
  calculateOptimalDimensions smallAngle (computeBounds [at_ 10 20; at_ 10 30]) 800 600
  = {| dim_width := JS.Math_round 800; dim_height := 0 |}.
Proof.
  apply (canvas_of_west_east_track smallAngle (computeBounds [at_ 10 20; at_ 10 30]) 800 600);
    (exact I || reflexivity).
Defined.

(** X21: a track that runs due south-north (all points at one longitude,
    away from the poles, where the cosine of the latitude is positive) gets a
    canvas of width 0: the aspect ratio is 0, the height [maxWidth / 0] is
    [Infinity], and the width is rescaled to [maxHeight * 0]. *)
Theorem canvas_of_south_north_track (B : Builtins) (b : Bounds) (maxWidth maxHeight : float) :
  finite (west b) -> east b = west b ->
  (0 <? north b - south b)%float = true ->
  (0 <? Math_cos B ((north b + south b) / 2 * JS.Math_PI / 180))%float = true ->
  finite (Math_cos B ((north b + south b) / 2 * JS.Math_PI / 180)) ->
  (0 <? maxWidth)%float = true -> (0 <? maxHeight)%float = true -> finite maxHeight ->
  calculateOptimalDimensions B b maxWidth maxHeight
  = {| dim_width := 0; dim_height := JS.Math_round maxHeight |}.
Proof.
  intros Hw Hew Hlat Hc Hcf Hmw Hmh Hmhf.
  rewrite Projection.calculateOptimalDimensions_cases.
  assert (Ha : aspectRatio B b = 0%float).
  { unfold aspectRatio. rewrite Hew, (sub_diag _ Hw), (mul_zero_pos _ Hc Hcf).
    now apply div_zero_pos. }
  rewrite Ha, (div_pos_zero _ Hmw), (mul_pos_zero _ Hmh Hmhf).
  unfold JS.gt. now rewrite (Degenerate.finite_below_infinity _ Hmhf).
Qed.

Lemma canvas_of_south_north_track_witness :
  calculateOptimalDimensions smallAngle (computeBounds [at_ (-1) 5; at_ 1 5]) 800 600
  = {| dim_width := 0; dim_height := JS.Math_round 600 |}.
Proof.
  apply (canvas_of_south_north_track smallAngle (computeBounds [at_ (-1) 5; at_ 1 5]) 800 600);
    (exact I || reflexivity).
Defined.

End CanvasExtras.

(** ** More on the metrics *)

Module MetricsExtras.
Import TrackUploader Notions MoreNotions FloatOrder FloatArith FloatFacts Metrics.

Lemma gainStep_nonneg gain pq : nonneg gain -> nonneg (gainStep gain pq).
Proof.
  intros Hg. unfold gainStep.
  destruct (JS.gt (JS.or_zero (elevation (snd pq))) (JS.or_zero (elevation (fst pq)))) eqn:E;
    [|exact Hg].
  apply add_nonneg; [exact Hg | now apply FloatExact.gt_sub_nonneg].
Qed.

Lemma gain_loop_nonneg l : forall gain,
  nonneg gain -> nonneg (fold_left gainStep l gain).
Proof.
  induction l as [|pq l IH]; intros gain Hg; [exact Hg|].
  simpl. now apply IH, gainStep_nonneg.
Qed.

Lemma nonneg_not_gt_zero g : nonneg g -> JS.gt g 0 = false -> g = 0%float.
Proof.
  unfold nonneg, JS.gt. rewrite FloatAxioms.ltb_spec. intros Hn Hgt.
  apply Prim2SF_inj. change (Prim2SF 0) with (S754_zero false) in *.
  destruct (Prim2SF g) as [[]|[]| |[] m e]; simpl in *;
    tauto || discriminate || reflexivity.
Qed.

(** X22: whatever the elevations are (missing, negative, infinite or NaN),
    the accumulated elevation gain is never negative and never NaN; so the
    gain is reported absent exactly when it is [0], and a reported gain is
    positive. *)
Theorem elevation_gain_not_negative (pts : list GPXPoint) :
  nonneg (accumulatedGain pts)
  /\ (0 <=? accumulatedGain pts)%float = true
  /\ (reportedGain pts = None <-> accumulatedGain pts = 0%float)
  /\ (forall g, reportedGain pts = Some g -> (0 <? g)%float = true).
Proof.
  assert (Hn : nonneg (accumulatedGain pts)).
  { rewrite accumulatedGain_loop. apply gain_loop_nonneg. exact I. }
  split; [exact Hn|]. split; [now apply Scrolling.nonneg_le|].
  unfold reportedGain. split.
  - split.
    + destruct (JS.gt (accumulatedGain pts) 0) eqn:E; [discriminate|].
      intros _. now apply nonneg_not_gt_zero.
    + intros ->. reflexivity.
  - intros g. destruct (JS.gt (accumulatedGain pts) 0) eqn:E; [|discriminate].
    intros H. inversion H; subst. exact E.
Qed.

End MetricsExtras.

(** ** More on the distance helper *)

Module DistanceExtras.
Import TrackUploader TrackToSVGConverter Notions MoreNotions FloatOrder FloatArith FloatFacts.

Lemma mul_self_nan_or_nonneg u : (u * u)%float = nan \/ nonneg (u * u)%float.
Proof.
  destruct (is_nan u) eqn:E.
  - left. apply BoundsExtras.is_nan_spec in E. apply nan_spec in E. subst u.
    apply mul_nan_l.
  - right. apply mul_self. now apply is_nan_number.
Qed.

Lemma add_nan_l x : (nan + x)%float = nan.
Proof.
  apply nan_spec. rewrite FloatAxioms.add_spec. change (Prim2SF nan) with S754_nan.
  reflexivity.
Qed.

Lemma add_nan_r x : (x + nan)%float = nan.
Proof.
  apply nan_spec. rewrite FloatAxioms.add_spec. change (Prim2SF nan) with S754_nan.
  now destruct (Prim2SF x).
Qed.

(** A Euclidean norm, as the code computes it, is NaN or not negative. *)
Lemma norm_nan_or_nonneg u v :
  PrimFloat.sqrt (u * u + v * v) = nan \/ nonneg (PrimFloat.sqrt (u * u + v * v)).
Proof.
  destruct (mul_self_nan_or_nonneg u) as [->|Hu]; [left; now rewrite add_nan_l|].
  destruct (mul_self_nan_or_nonneg v) as [->|Hv]; [left; now rewrite add_nan_r|].
  right. now apply sqrt_nonneg, add_nonneg.
Qed.

(** X23: whatever the point and the segment are, [pointToLineDistance]
    returns NaN or a number that is not negative (its sign bit is clear, so
    it is never [-0] either): it is never below [0], the start value of
    [maxDistance] in [simplifyPath]. *)
Theorem pointToLineDistance_not_negative (point lineStart lineEnd : SvgPoint) :
  (pointToLineDistance point lineStart lineEnd = nan
   \/ nonneg (pointToLineDistance point lineStart lineEnd))
  /\ JS.lt (pointToLineDistance point lineStart lineEnd) 0 = false.
Proof.
  assert (H : pointToLineDistance point lineStart lineEnd = nan
              \/ nonneg (pointToLineDistance point lineStart lineEnd)).
  { unfold pointToLineDistance, pointToLineDistance_traced.
    destruct (JS.strict_neq _ _); cbv zeta iota beta;
      (destruct (JS.lt _ _); [|destruct (JS.gt _ _)]); cbn [fst];
      apply norm_nan_or_nonneg. }
  split; [exact H|]. unfold JS.lt.
  destruct H as [->|H]; [apply lt_nan_l|].
  destruct (_ <? 0)%float eqn:E; [|reflexivity].
  exfalso. exact (le_lt_absurd _ _ (Scrolling.nonneg_le _ H) E).
Qed.

End DistanceExtras.
